From Stdlib Require Import ZArith List Bool String Ascii Lia QArith Qabs Qpower Qround Lqa Sorted.
From Stdlib Require Import Floats.SpecFloat.
From Stdlib Require DecimalString DecimalPos.
Import ListNotations.
Open Scope Z_scope.

(** * Python values and exceptions *)

Inductive exn : Type :=
| ValueError
| IndexError
| KeyError
| OverflowError
| ZeroDivisionError
| TranslatorFailure.

Inductive result (A : Type) : Type :=
| Ok (a : A)
| Raise (e : exn).
Arguments Ok {A} a.
Arguments Raise {A} e.

Definition rbind {A B} (r : result A) (k : A -> result B) : result B :=
  match r with
  | Ok a => k a
  | Raise e => Raise e
  end.

Fixpoint rmap {A B} (f : A -> result B) (l : list A) : result (list B) :=
  match l with
  | [] => Ok []
  | a :: t => rbind (f a) (fun b => rbind (rmap f t) (fun bs => Ok (b :: bs)))
  end.

(** * Python floats: IEEE-754 binary64 *)

Module PyFloat.

Definition prec : Z := 53.
Definition emax : Z := 1024.

Definition float := spec_float.

(* int -> float conversion (round to nearest even); OverflowError
   "int too large to convert to float" when the result is not finite *)
Definition float_of_int (z : Z) : result float :=
  match binary_normalize prec emax z 0 false with
  | S754_infinity _ => Raise OverflowError
  | f => Ok f
  end.

(* int(x) for a float x: truncation toward zero *)
Definition int_of_float (f : float) : result Z :=
  match f with
  | S754_zero _ => Ok 0
  | S754_finite s m e => Ok (cond_Zopp s (Z.shiftl (Zpos m) e))
  | S754_infinity _ => Raise OverflowError
  | S754_nan => Raise ValueError
  end.

Definition mul (x y : float) : float := SFmul prec emax x y.
Definition add (x y : float) : float := SFadd prec emax x y.
Definition div (x y : float) : float := SFdiv prec emax x y.

(* a / b on ints whose magnitudes fit a float exactly: both operands are
   converted and divided as floats *)
Definition int_truediv (a b : Z) : result float :=
  if b =? 0 then Raise ZeroDivisionError
  else rbind (float_of_int a) (fun fa =>
       rbind (float_of_int b) (fun fb => Ok (div fa fb))).

(* i * x and i + x with an int i and a float x *)
Definition int_mul_float (i : Z) (x : float) : result float :=
  rbind (float_of_int i) (fun fi => Ok (mul fi x)).
Definition int_add_float (i : Z) (x : float) : result float :=
  rbind (float_of_int i) (fun fi => Ok (add fi x)).

End PyFloat.

(** * Python strings (code points below 256) *)

Module PyStr.

Definition is_space (c : ascii) : bool :=
  let n := nat_of_ascii c in
  ((9 <=? n) && (n <=? 13) || (28 <=? n) && (n <=? 32) || (n =? 133) || (n =? 160))%nat.

Fixpoint lstrip (s : string) : string :=
  match s with
  | String c r => if is_space c then lstrip r else s
  | EmptyString => EmptyString
  end.

Fixpoint rstrip (s : string) : string :=
  match s with
  | String c r =>
      match rstrip r with
      | EmptyString => if is_space c then EmptyString else String c EmptyString
      | r' => String c r'
      end
  | EmptyString => EmptyString
  end.

Definition strip (s : string) : string := rstrip (lstrip s).

(* s.split(sep) for a one-character separator *)
Fixpoint split (sep : ascii) (s : string) : list string :=
  match s with
  | EmptyString => [EmptyString]
  | String c r =>
      if Ascii.eqb c sep then EmptyString :: split sep r
      else match split sep r with
           | h :: t => String c h :: t
           | [] => [String c EmptyString]
           end
  end.

Definition digit_value (c : ascii) : option Z :=
  let n := nat_of_ascii c in
  if ((48 <=? n) && (n <=? 57))%nat then Some (Z.of_nat n - 48) else None.

(* decimal digits, single underscores allowed between digits *)
Fixpoint parse_digits (s : string) (acc : Z) (after_digit : bool) : option Z :=
  match s with
  | EmptyString => if after_digit then Some acc else None
  | String c r =>
      match digit_value c with
      | Some d => parse_digits r (10 * acc + d) true
      | None =>
          if Ascii.eqb c "_" && after_digit then parse_digits r acc false
          else None
      end
  end.

(* sys.int_info.default_max_str_digits: int(s) and str(i) raise ValueError
   beyond this many digits (the sign and underscores are not counted) *)
Definition max_str_digits : Z := 4300.

Fixpoint count_digits (s : string) : Z :=
  match s with
  | EmptyString => 0
  | String c r =>
      match digit_value c with
      | Some _ => 1 + count_digits r
      | None => count_digits r
      end
  end.

(* the digits of an int literal: ValueError (None) when there are more
   than max_str_digits of them or when they are malformed *)
Definition parse_int_digits (t : string) : option Z :=
  if max_str_digits <? count_digits t then None else parse_digits t 0 false.

(* int(s): surrounding whitespace, an optional sign, decimal digits *)
Definition int_of_str (s : string) : result Z :=
  let r :=
    match strip s with
    | String "+" t => parse_int_digits t
    | String "-" t => option_map Z.opp (parse_int_digits t)
    | t => parse_int_digits t
    end in
  match r with
  | Some z => Ok z
  | None => Raise ValueError
  end.

End PyStr.

(** * maestro.py *)

Module Maestro.

(* bytearray(iterable of ints): ValueError unless every element is in range(0, 256) *)
Definition bytearray (l : list Z) : result (list Z) :=
  if forallb (fun b => (0 <=? b) && (b <? 256)) l then Ok l else Raise ValueError.

(* MaestroController.set_target: the command handed to ser.write *)
Definition set_target (channel target : Z) : result (list Z) :=
  bytearray [0x84; channel; Z.land target 0x7F; Z.land (Z.shiftr target 7) 0x7F].

End Maestro.

(** * app_prompt_multi_ai_voice_4_servo.py *)

Definition servo_channels : list Z := [0; 1; 2; 3].
Definition MIN_PULSE : list Z := [4000; 4000; 5000; 4000].
Definition MAX_PULSE : list Z := [8000; 8000; 5000; 6000].
Definition NEUTRAL : list Z := [6000; 6000; 5000; 5000].
Definition INTERPOLATION_STEPS : Z := 20.

Inductive event : Type :=
| SerialWrite (command : list Z)       (* servo.ser.write(command) *)
| SliderSet (channel pulse : Z)        (* sliders[channel].set(pulse) *)
| Sleep                                (* time.sleep(STEP_DELAY) *)
| PrintInvalidStep (step : string)
| PrintError (e : exn).

Record state : Type := mkState {
  current_position : list Z;
  trace : list event          (* effects so far, oldest first *)
}.

(* state and exception monad: the state survives a raise *)
Definition M (A : Type) : Type := state -> result A * state.

Definition ret {A} (a : A) : M A := fun st => (Ok a, st).
Definition raise {A} (e : exn) : M A := fun st => (Raise e, st).
Definition bind {A B} (m : M A) (k : A -> M B) : M B :=
  fun st => match m st with
            | (Ok a, st') => k a st'
            | (Raise e, st') => (Raise e, st')
            end.
Definition lift {A} (r : result A) : M A := fun st => (r, st).
Definition emit (ev : event) : M unit :=
  fun st => (Ok tt, mkState (current_position st) (trace st ++ [ev])).
Definition get_position (i : nat) : M Z :=
  fun st => match nth_error (current_position st) i with
            | Some v => (Ok v, st)
            | None => (Raise IndexError, st)
            end.

Fixpoint list_set (l : list Z) (i : nat) (v : Z) : option (list Z) :=
  match l, i with
  | [], _ => None
  | _ :: t, O => Some (v :: t)
  | h :: t, S j => option_map (cons h) (list_set t j v)
  end.

Definition set_position (i : nat) (v : Z) : M unit :=
  fun st => match list_set (current_position st) i v with
            | Some l => (Ok tt, mkState l (trace st))
            | None => (Raise IndexError, st)
            end.

Notation "x <- m ;; k" := (bind m (fun x => k))
  (at level 61, m at next level, right associativity).
Notation "m ;;; k" := (bind m (fun _ => k))
  (at level 61, right associativity).

Fixpoint for_each {A} (l : list A) (body : A -> M unit) : M unit :=
  match l with
  | [] => ret tt
  | a :: t => body a ;;; for_each t body
  end.

Definition index {A} (l : list A) (i : nat) : result A :=
  match nth_error l i with
  | Some a => Ok a
  | None => Raise IndexError
  end.

Definition update_servo (channel : Z) (value : Z) : M unit :=
  let pulse := value in
  command <- lift (Maestro.set_target channel pulse) ;;
  emit (SerialWrite command) ;;;
  (if existsb (Z.eqb channel) servo_channels then emit (SliderSet channel pulse)
   else raise KeyError).

(* module start-up: servo.set_target(ch, pos) for every channel *)
Definition startup : M unit :=
  for_each (combine servo_channels NEUTRAL) (fun '(ch, pos) =>
    command <- lift (Maestro.set_target ch pos) ;;
    emit (SerialWrite command)).

Definition initial_state : state := snd (startup (mkState NEUTRAL [])).

Definition reset_all_servos : M unit :=
  for_each servo_channels (fun ch =>
    v <- lift (index NEUTRAL (Z.to_nat ch)) ;;
    update_servo ch v ;;;
    set_position (Z.to_nat ch) v).

(* int(start + (end - start) * (s / INTERPOLATION_STEPS)) *)
Definition frame (start end_ s : Z) : result Z :=
  rbind (PyFloat.int_truediv s INTERPOLATION_STEPS) (fun ratio =>
  rbind (PyFloat.int_mul_float (end_ - start) ratio) (fun delta =>
  rbind (PyFloat.int_add_float start delta) (fun x =>
  PyFloat.int_of_float x))).

(* range(1, INTERPOLATION_STEPS + 1) *)
Definition step_range : list Z :=
  map Z.of_nat (seq 1 (Z.to_nat INTERPOLATION_STEPS)).

Definition interpolation_frames (start end_ : Z) : result (list Z) :=
  rmap (frame start end_) step_range.

(* for step in steps: update_servo(i, step); time.sleep(STEP_DELAY) *)
Definition run_frames (i : nat) (steps : list Z) : M unit :=
  for_each steps (fun step => update_servo (Z.of_nat i) step ;;; emit Sleep).

(* body of the loop of move_to_position for index i *)
Definition move_channel (targets : list Z) (i : nat) : M unit :=
  if Nat.eqb i 2 then
    update_servo (Z.of_nat i) 5000 ;;;
    set_position i 5000
  else
    start <- get_position i ;;
    end_ <- lift (index targets i) ;;
    steps <- lift (interpolation_frames start end_) ;;
    run_frames i steps ;;;
    set_position i end_.

Definition move_to_position (targets : list Z) : M unit :=
  for_each (seq 0 (List.length servo_channels)) (move_channel targets).

Definition clamp (lo hi pulse : Z) : Z := Z.max lo (Z.min hi pulse).

Definition clamp_channel (ch : nat) (pulse : Z) : Z :=
  if Nat.eqb ch 2 then 5000
  else clamp (nth ch MIN_PULSE 0) (nth ch MAX_PULSE 0) pulse.

Fixpoint clamp_from (ch : nat) (values : list Z) : list Z :=
  match values with
  | [] => []
  | pulse :: t => clamp_channel ch pulse :: clamp_from (S ch) t
  end.

Definition clamp_values (values : list Z) : list Z := clamp_from 0 values.

(* one iteration of the loop over the steps of handle_prompt, after the
   tokens of the step are parsed *)
Definition execute_values (step : string) (values : list Z) : M unit :=
  if negb (Nat.eqb (List.length values) (List.length servo_channels)) then
    emit (PrintInvalidStep step)
  else
    move_to_position (clamp_values values).

Definition parse_step (step : string) : result (list Z) :=
  rmap (fun val => PyStr.int_of_str (PyStr.strip val))
       (PyStr.split "," (PyStr.strip step)).

Definition execute_step (step : string) : M unit :=
  values <- lift (parse_step step) ;;
  execute_values step values.

(* the try block of handle_prompt once the translator has answered *)
Definition run_plan (response : string) : M unit :=
  for_each (PyStr.split "|" (PyStr.strip response)) execute_step.

(* handle_prompt: the translator is external, its answer (or failure) is
   the argument; any exception ends in the except branch *)
Definition handle_prompt (translation : result string) : state -> state :=
  fun st =>
    match (response <- lift translation ;; run_plan response) st with
    | (Ok _, st') => st'
    | (Raise e, st') => mkState (current_position st') (trace st' ++ [PrintError e])
    end.

(* hardware writes of a trace, as (channel, pulse bytes) commands *)
Definition serial_writes (tr : list event) : list (list Z) :=
  flat_map (fun ev => match ev with SerialWrite c => [c] | _ => [] end) tr.

(** * Value of a float and correct rounding *)

Definition rne_shift (M n : Z) : Z :=
  let q := M / 2 ^ n in
  let r := M mod 2 ^ n in
  if 2 * r <? 2 ^ n then q
  else if 2 ^ n <? 2 * r then q + 1
  else if Z.even q then q else q + 1.

Definition shr_inv (M i : Z) (r : shr_record) : Prop :=
  0 <= shr_m r /\
  exists rest, 0 <= rest < 2 ^ i /\ M = shr_m r * 2 ^ i + rest /\
    (shr_r r = true <-> 2 ^ i <= 2 * rest) /\
    (shr_s r = true <-> (rest <> 0 /\ 2 * rest <> 2 ^ i)).

Open Scope Q_scope.

Definition Q2 (e : Z) : Q := (2 # 1) ^ e.

Definition SF2Q (f : spec_float) : Q :=
  match f with
  | S754_finite s m e => inject_Z (cond_Zopp s (Zpos m)) * Q2 e
  | _ => 0
  end.

Definition rnd_pos (x v : Q) : Prop :=
  exists k E,
    v == inject_Z k * Q2 E /\
    (2 ^ 52 <= k <= 2 ^ 53)%Z /\
    inject_Z (2 ^ 52) * Q2 E <= x /\
    x < inject_Z (2 ^ 53) * Q2 E /\
    inject_Z (2 * k - 1) * Q2 E <= 2 * x /\
    2 * x <= inject_Z (2 * k + 1) * Q2 E /\
    ((2 * x == inject_Z (2 * k - 1) * Q2 E \/ 2 * x == inject_Z (2 * k + 1) * Q2 E) ->
     Z.even k = true).

Definition rounds_to (x : Q) (f : spec_float) : Prop :=
  match f with
  | S754_zero _ => x == 0
  | S754_finite s m e =>
      if s then x < 0 /\ rnd_pos (- x) (inject_Z (Zpos m) * Q2 e)
      else 0 < x /\ rnd_pos x (inject_Z (Zpos m) * Q2 e)
  | _ => False
  end.

Definition fin_in (lo hi : Z) (f : spec_float) : Prop :=
  match f with
  | S754_zero _ => True
  | S754_finite _ m e => Pos.size m = 53%positive /\ (lo <= e <= hi)%Z
  | _ => False
  end.

Definition Qtrunc (q : Q) : Z := if Qle_bool 0 q then Qfloor q else Qceiling q.

Open Scope Z_scope.

(** * Vocabulary of the statements about the arm *)

(* the bytes of one set-target command *)
Definition command (channel pulse : Z) : list Z :=
  [0x84; channel; Z.land pulse 0x7F; Z.land (Z.shiftr pulse 7) 0x7F].

(* effects of update_servo(i, pulse) *)
Definition servo_events (i : nat) (pulse : Z) : list event :=
  [SerialWrite (command (Z.of_nat i) pulse); SliderSet (Z.of_nat i) pulse].

(* effects of the frame loop of channel i *)
Definition frame_events (i : nat) (steps : list Z) : list event :=
  flat_map (fun step => servo_events i step ++ [Sleep]) steps.

(* pulse widths sent to a channel, in order *)
Definition pulses_sent (channel : Z) (tr : list event) : list Z :=
  flat_map (fun ev => match ev with
                      | SliderSet ch pulse => if ch =? channel then [pulse] else []
                      | _ => []
                      end) tr.

(* every stored position lies within the bounds of its channel *)
Definition in_bounds (pos : list Z) : Prop :=
  List.length pos = 4%nat /\
  forall ch, (ch < 4)%nat -> nth ch MIN_PULSE 0 <= nth ch pos 0 <= nth ch MAX_PULSE 0.

(* integers that convert to a float without rounding *)
Definition exact_int (z : Z) : Prop := Z.abs z < 2 ^ 53.

Definition frame_value (start end_ s : Z) : Z :=
  match frame start end_ s with
  | Ok v => v
  | Raise _ => 0
  end.

(* set-target commands of a trace addressed to one channel *)
Definition commands_to (channel : Z) (tr : list event) : list (list Z) :=
  flat_map (fun ev => match ev with
                      | SerialWrite c => if nth 1 c (-1) =? channel then [c] else []
                      | _ => []
                      end) tr.

(* z is an integer nearest to q (either neighbour on a tie) *)
Definition nearest_int (q : Q) (z : Z) : Prop :=
  (Qabs (q - inject_Z z) <= 1 # 2)%Q.

(* the frame formula in the words of the specification:
   start + round((end - start) * s / S) *)
Definition spec_frame (start end_ s frame_ : Z) : Prop :=
  exists r, frame_ = start + r /\
            nearest_int (inject_Z ((end_ - start) * s) / inject_Z INTERPOLATION_STEPS) r.

(* state reached once the first k frames of channel i are written *)
Definition after_frames (i : nat) (steps : list Z) (k : nat) (st : state) : state :=
  snd (run_frames i (firstn k steps) st).

(** * Exhaustive check of the products (end - start) * (s / 20) *)

(* value of a float times 2^60, for exponents from -60 up *)
Definition scaled60 (f : spec_float) : option Z :=
  match f with
  | S754_zero _ => Some 0
  | S754_finite s m e =>
      if -60 <=? e then Some (cond_Zopp s (Zpos m * 2 ^ (e + 60))) else None
  | _ => None
  end.

(* p stands for the float product d * (s / 20): it is within 2^-42 of the
   exact quotient when 20 divides d * s, and otherwise stays at least 1/32
   away from the integers around it *)
Definition product_near (d s : Z) (p : spec_float) : bool :=
  match scaled60 p with
  | Some V =>
      let k := (d * s) / 20 in
      if (d * s) mod 20 =? 0 then
        (k * 2 ^ 60 - 2 ^ 18 <=? V) && (V <=? k * 2 ^ 60 + 2 ^ 18)
      else ((32 * k + 1) * 2 ^ 55 <=? V) && (V <=? (32 * k + 31) * 2 ^ 55)
  | None => false
  end.

Definition delta_range : list Z :=
  map (fun n => Z.of_nat n - 4000) (seq 0 (Z.to_nat 8001)).

Definition ratio_table : list (Z * result spec_float) :=
  map (fun s => (s, PyFloat.int_truediv s INTERPOLATION_STEPS)) step_range.

Definition entry_ok (d : Z) (fd : spec_float) (sc : Z * result spec_float) : bool :=
  match snd sc with
  | Ok c => product_near d (fst sc) (PyFloat.mul fd c)
  | Raise _ => false
  end.

Definition row_ok (table : list (Z * result spec_float)) (d : Z) : bool :=
  match PyFloat.float_of_int d with
  | Ok fd => forallb (entry_ok d fd) table
  | Raise _ => false
  end.

(** * Safety vocabulary *)

(* pulse lies within the bounds of channel ch *)
Definition pulse_ok (ch : nat) (pulse : Z) : Prop :=
  nth ch MIN_PULSE 0 <= pulse <= nth ch MAX_PULSE 0.

(* an effect that keeps a servo within the bounds of its channel *)
Definition safe_event (ev : event) : Prop :=
  match ev with
  | SerialWrite c =>
      exists ch pulse, (ch < 4)%nat /\ pulse_ok ch pulse /\ c = command (Z.of_nat ch) pulse
  | SliderSet channel pulse =>
      exists ch, (ch < 4)%nat /\ channel = Z.of_nat ch /\ pulse_ok ch pulse
  | _ => True
  end.

(* a step that parses to one value per channel *)
Definition well_formed_step (step : string) : Prop :=
  exists values, parse_step step = Ok values /\ List.length values = 4%nat.


(** * The position shown to the translator *)

(* the decimal digits of an int, after a minus sign when it is negative *)
Definition decimal_text (z : Z) : string :=
  DecimalString.NilZero.string_of_int (Z.to_int z).

(* str(i) of an int, as an f-string renders it: ValueError beyond
   max_str_digits digits *)
Definition str_of_int (z : Z) : result string :=
  if PyStr.max_str_digits <? PyStr.count_digits (decimal_text z) then Raise ValueError
  else Ok (decimal_text z).

(* translate_natural_language_to_positions, line 105: the text
   "{claw},{base},{fixed},{reach}" *)
Definition position_text (claw base fixed reach : Z) : result string :=
  rbind (str_of_int claw) (fun c =>
  rbind (str_of_int base) (fun b =>
  rbind (str_of_int fixed) (fun f =>
  rbind (str_of_int reach) (fun r =>
  Ok (c ++ "," ++ b ++ "," ++ f ++ "," ++ r)%string)))).

(* line 77: claw, base, fixed, reach = current_position *)
Definition render_position (pos : list Z) : result string :=
  match pos with
  | [claw; base; fixed; reach] => position_text claw base fixed reach
  | _ => Raise ValueError
  end.

Fixpoint all_chars (P : ascii -> bool) (s : string) : bool :=
  match s with
  | EmptyString => true
  | String c r => P c && all_chars P r
  end.

Definition decimal_char (c : ascii) : bool :=
  match PyStr.digit_value c with
  | Some _ => true
  | None => Ascii.eqb c "-"
  end.

(** * The wake word of the voice thread *)

Definition WAKE_WORD : string := "terminator".

(* text.startswith(prefix) *)
Fixpoint startswith (text prefix : string) {struct prefix} : bool :=
  match prefix, text with
  | EmptyString, _ => true
  | String p prefix', String c text' => Ascii.eqb c p && startswith text' prefix'
  | String _ _, EmptyString => false
  end.

(* text[n:] *)
Fixpoint slice_from (n : nat) (text : string) : string :=
  match n, text with
  | O, _ => text
  | S m, String _ text' => slice_from m text'
  | S _, EmptyString => EmptyString
  end.

Fixpoint mem_char (c : ascii) (chars : string) : bool :=
  match chars with
  | EmptyString => false
  | String x chars' => Ascii.eqb c x || mem_char c chars'
  end.

(* s.strip(chars): leading and trailing characters of the set removed *)
Fixpoint lstrip_chars (chars s : string) : string :=
  match s with
  | String c r => if mem_char c chars then lstrip_chars chars r else s
  | EmptyString => EmptyString
  end.

Fixpoint rstrip_chars (chars s : string) : string :=
  match s with
  | String c r =>
      match rstrip_chars chars r with
      | EmptyString => if mem_char c chars then EmptyString else String c EmptyString
      | r' => String c r'
      end
  | EmptyString => EmptyString
  end.

Definition strip_chars (chars s : string) : string :=
  rstrip_chars chars (lstrip_chars chars s).

(* listen_for_voice, lines 193-197: the command handed to handle_prompt for
   a recognised text, None when the wake word is missing *)
Definition wake_command (text : string) : option string :=
  if startswith text WAKE_WORD then
    Some (strip_chars ",. " (slice_from (String.length WAKE_WORD) text))
  else None.
(** * The rounding performed by the float operations *)

Lemma digits2_size m : digits2_pos m = Pos.size m.
Proof. induction m; simpl; congruence. Qed.

Lemma iter_pos_nat {A} (f : A -> A) p x :
  iter_pos f p x = Nat.iter (Pos.to_nat p) f x.
Proof.
  revert x; induction p as [p IH|p IH|]; intros x; simpl iter_pos.
  - rewrite !IH, Pos2Nat.inj_xI.
    replace (S (2 * Pos.to_nat p))%nat with (Pos.to_nat p + (Pos.to_nat p + 1))%nat by lia.
    rewrite !Nat.iter_add. reflexivity.
  - rewrite !IH, Pos2Nat.inj_xO.
    replace (2 * Pos.to_nat p)%nat with (Pos.to_nat p + Pos.to_nat p)%nat by lia.
    rewrite Nat.iter_add. reflexivity.
  - reflexivity.
Qed.

Lemma shr_inv_init M : 0 <= M -> shr_inv M 0 (Build_shr_record M false false).
Proof.
  intros HM. split; [exact HM|]. exists 0. simpl.
  repeat split; try lia; intros; try discriminate; lia.
Qed.

Lemma shr_1_m_r mrs : 0 <= shr_m mrs ->
  shr_m (shr_1 mrs) = shr_m mrs / 2 /\
  shr_r (shr_1 mrs) = Z.odd (shr_m mrs) /\
  shr_s (shr_1 mrs) = orb (shr_r mrs) (shr_s mrs).
Proof.
  destruct mrs as [m r s]; simpl. intros Hm.
  destruct m as [|[p|p|]|p]; simpl; try lia; repeat split; try reflexivity.
  - rewrite (Pos2Z.inj_xI p). apply Z.div_unique with (r := 1); lia.
  - rewrite (Pos2Z.inj_xO p). apply Z.div_unique with (r := 0); lia.
Qed.

Lemma shr_inv_step M i r : 0 <= i -> shr_inv M i r -> shr_inv M (i + 1) (shr_1 r).
Proof.
  intros Hi [Hm [rest [Hrest [HM [Hr Hs]]]]].
  destruct (shr_1_m_r r Hm) as [E1 [E2 E3]].
  assert (Hp : 2 ^ (i + 1) = 2 * 2 ^ i) by (rewrite Z.pow_add_r by lia; lia).
  assert (Hpos : 0 < 2 ^ i) by (apply Z.pow_pos_nonneg; lia).
  pose proof (Z.div_mod (shr_m r) 2 ltac:(lia)) as Hdm.
  pose proof (Z.mod_pos_bound (shr_m r) 2 ltac:(lia)) as Hb.
  split.
  - rewrite E1. apply Z.div_pos; lia.
  - exists ((shr_m r mod 2) * 2 ^ i + rest).
    rewrite E1, E2, E3, Hp.
    assert (Hodd : Z.odd (shr_m r) = true <-> shr_m r mod 2 = 1).
    { rewrite Zmod_odd. destruct (Z.odd (shr_m r)); split; intros; try discriminate; try lia; reflexivity. }
    rewrite Hodd, orb_true_iff, Hr, Hs.
    assert (shr_m r mod 2 = 0 \/ shr_m r mod 2 = 1) as [Hbit|Hbit] by lia;
      rewrite Hbit in *.
    + repeat split; lia.
    + repeat split; lia.
Qed.

Lemma shr_inv_iter M n r : shr_inv M 0 r -> shr_inv M (Z.of_nat n) (Nat.iter n shr_1 r).
Proof.
  intros H. induction n as [|n IH]; [exact H|].
  rewrite Nat2Z.inj_succ. unfold Z.succ. simpl Nat.iter.
  apply shr_inv_step; [lia|exact IH].
Qed.

Lemma rne_of_shr M n r : 0 <= n -> shr_inv M n r ->
  round_nearest_even (shr_m r) (loc_of_shr_record r) = rne_shift M n.
Proof.
  intros Hn [Hm [rest [Hrest [HM [Hr Hs]]]]].
  assert (Hpos : 0 < 2 ^ n) by (apply Z.pow_pos_nonneg; lia).
  assert (Hq : M / 2 ^ n = shr_m r).
  { symmetry. apply Z.div_unique_pos with (r := rest); lia. }
  assert (Hrem : M mod 2 ^ n = rest).
  { symmetry. apply Z.mod_unique_pos with (q := shr_m r); lia. }
  unfold rne_shift. rewrite Hq, Hrem.
  destruct r as [m rb sb]; cbn [shr_m shr_r shr_s loc_of_shr_record] in *.
  destruct (Z.ltb_spec (2 * rest) (2 ^ n)) as [Hlt|Hge].
  - destruct rb; [pose proof (proj1 Hr eq_refl); lia|].
    destruct sb; reflexivity.
  - assert (rb = true) by (apply Hr; lia). subst rb.
    destruct (Z.ltb_spec (2 ^ n) (2 * rest)) as [Hlt|Hle].
    + assert (sb = true) by (apply Hs; lia). subst sb. reflexivity.
    + destruct sb; [pose proof (proj1 Hs eq_refl); lia|]. reflexivity.
Qed.

Lemma size_bounds p : 2 ^ (Zpos (Pos.size p) - 1) <= Zpos p < 2 ^ Zpos (Pos.size p).
Proof.
  induction p as [p IH|p IH|]; cbn [Pos.size].
  - rewrite Pos2Z.inj_succ, (Pos2Z.inj_xI p).
    replace (Z.succ (Zpos (Pos.size p)) - 1) with (Z.succ (Zpos (Pos.size p) - 1)) by lia.
    rewrite !Z.pow_succ_r by lia.
    destruct IH as [IH1 IH2]; revert IH1 IH2.
    generalize (2 ^ (Zpos (Pos.size p) - 1)) (2 ^ Zpos (Pos.size p)). intros; lia.
  - rewrite Pos2Z.inj_succ, (Pos2Z.inj_xO p).
    replace (Z.succ (Zpos (Pos.size p)) - 1) with (Z.succ (Zpos (Pos.size p) - 1)) by lia.
    rewrite !Z.pow_succ_r by lia.
    destruct IH as [IH1 IH2]; revert IH1 IH2.
    generalize (2 ^ (Zpos (Pos.size p) - 1)) (2 ^ Zpos (Pos.size p)). intros; lia.
  - simpl. lia.
Qed.

Lemma size_unique p d : 2 ^ (d - 1) <= Zpos p < 2 ^ d -> Zpos (Pos.size p) = d.
Proof.
  intros H. pose proof (size_bounds p) as B.
  assert (0 < d).
  { destruct (Z.ltb_spec 0 d); [assumption|].
    destruct (Z.eq_dec d 0); [subst; simpl in H; lia|].
    rewrite (Z.pow_neg_r 2 d) in H by lia. lia. }
  destruct (Z.lt_trichotomy (Zpos (Pos.size p)) d) as [L|[E|G]]; [|exact E|].
  - assert (2 ^ Zpos (Pos.size p) <= 2 ^ (d - 1)) by (apply Z.pow_le_mono_r; lia). lia.
  - assert (2 ^ d <= 2 ^ (Zpos (Pos.size p) - 1)) by (apply Z.pow_le_mono_r; lia). lia.
Qed.

Lemma rne_shift_spec M n : 0 <= n -> 0 <= M ->
  let k := rne_shift M n in
  M / 2 ^ n <= k <= M / 2 ^ n + 1 /\
  (2 * k - 1) * 2 ^ n <= 2 * M <= (2 * k + 1) * 2 ^ n /\
  ((2 * M = (2 * k - 1) * 2 ^ n \/ 2 * M = (2 * k + 1) * 2 ^ n) -> Z.even k = true).
Proof.
  intros Hn HM k.
  assert (Hpos : 0 < 2 ^ n) by (apply Z.pow_pos_nonneg; lia).
  pose proof (Z.div_mod M (2 ^ n) ltac:(lia)) as Hdm.
  pose proof (Z.mod_pos_bound M (2 ^ n) Hpos) as Hb.
  subst k. unfold rne_shift.
  set (q := M / 2 ^ n) in *. set (r := M mod 2 ^ n) in *.
  assert (Hq : M = q * 2 ^ n + r) by lia. clearbody q r.
  destruct (Z.ltb_spec (2 * r) (2 ^ n)); [|destruct (Z.ltb_spec (2 ^ n) (2 * r))].
  - split; [lia|]. split; [nia|]. intros [E|E]; nia.
  - split; [lia|]. split; [nia|]. intros [E|E]; nia.
  - assert (Er : 2 * r = 2 ^ n) by lia.
    destruct (Z.even q) eqn:Ev.
    + split; [lia|]. split; [nia|]. intros _. exact Ev.
    + split; [lia|]. split; [nia|]. intros _.
      rewrite Z.even_add, Ev. reflexivity.
Qed.

Lemma rne_shift_exact M n : 0 <= n -> M mod 2 ^ n = 0 -> rne_shift M n = M / 2 ^ n.
Proof.
  intros Hn Hr. unfold rne_shift. rewrite Hr.
  assert (Hpos : 0 < 2 ^ n) by (apply Z.pow_pos_nonneg; lia).
  destruct (Z.ltb_spec (2 * 0) (2 ^ n)); [reflexivity|lia].
Qed.

Lemma shr_spec M e n : 0 <= M -> 0 <= n ->
  shr_inv M n (fst (shr (Build_shr_record M false false) e n)) /\
  snd (shr (Build_shr_record M false false) e n) = e + n.
Proof.
  intros HM Hn. destruct n as [|p|p]; [| |lia].
  - simpl. split; [apply shr_inv_init; exact HM|lia].
  - cbn [shr fst snd]. split; [|reflexivity].
    rewrite iter_pos_nat, <- positive_nat_Z.
    apply shr_inv_iter, shr_inv_init, HM.
Qed.

Lemma fexp_normal d : 3 - PyFloat.emax - PyFloat.prec <= d - PyFloat.prec -> fexp PyFloat.prec PyFloat.emax d = d - PyFloat.prec.
Proof. unfold fexp, SpecFloat.emin. lia. Qed.

Lemma binary_round_aux_spec s m e :
  let n := Zpos (Pos.size m) - 53 in
  0 <= n -> -1074 <= e + n -> e + n + 1 <= 971 ->
  exists m' e',
    binary_round_aux PyFloat.prec PyFloat.emax s (Zpos m) e loc_Exact = S754_finite s m' e' /\
    Pos.size m' = 53%positive /\
    e + n <= e' <= e + n + 1 /\
    Zpos m' * 2 ^ (e' - (e + n)) = rne_shift (Zpos m) n.
Proof.
  intros n Hn Hlo Hhi.
  pose proof (size_bounds m) as Bm.
  assert (Hpn : 0 < 2 ^ n) by (apply Z.pow_pos_nonneg; lia).
  assert (Hsz : Zpos (Pos.size m) = 53 + n) by (subst n; lia).
  destruct (rne_shift_spec (Zpos m) n Hn ltac:(lia)) as [Hk1 [Hk2 Hk3]].
  set (k := rne_shift (Zpos m) n) in *.
  assert (Hq : 2 ^ 52 <= Zpos m / 2 ^ n < 2 ^ 53).
  { rewrite Hsz in Bm. replace (53 + n - 1) with (52 + n) in Bm by lia.
    rewrite !Z.pow_add_r in Bm by lia. split.
    - apply Z.div_le_lower_bound; lia.
    - apply Z.div_lt_upper_bound; lia. }
  unfold binary_round_aux.
  assert (Hsh1 : shr_fexp PyFloat.prec PyFloat.emax (Zpos m) e loc_Exact =
                 shr (Build_shr_record (Zpos m) false false) e n).
  { unfold shr_fexp. cbn [shr_record_of_loc Zdigits2]. rewrite digits2_size.
    rewrite fexp_normal by (unfold PyFloat.emax, PyFloat.prec; lia).
    f_equal. unfold PyFloat.prec. lia. }
  rewrite Hsh1.
  destruct (shr_spec (Zpos m) e n ltac:(lia) Hn) as [Hinv He'].
  destruct (shr (Build_shr_record (Zpos m) false false) e n) as [mrs e1].
  cbn [fst snd] in Hinv, He'. subst e1.
  rewrite (rne_of_shr (Zpos m) n mrs Hn Hinv). fold k.
  destruct (Z.eq_dec k (2 ^ 53)) as [Ek|Nk].
  - rewrite Ek.
    assert (Hsh2 : shr_fexp PyFloat.prec PyFloat.emax (2 ^ 53) (e + n) loc_Exact =
                   (Build_shr_record (2 ^ 52) false false, e + n + 1)).
    { unfold shr_fexp. cbn [shr_record_of_loc].
      change (Zdigits2 (2 ^ 53)) with 54.
      rewrite fexp_normal by (unfold PyFloat.emax, PyFloat.prec; lia).
      replace (54 + (e + n) - PyFloat.prec - (e + n)) with 1 by (unfold PyFloat.prec; lia).
      reflexivity. }
    rewrite Hsh2. cbn [shr_m].
    change (2 ^ 52) with (Zpos (2 ^ 52)).
    replace (e + n + 1 <=? PyFloat.emax - PyFloat.prec) with true
      by (symmetry; apply Z.leb_le; unfold PyFloat.emax, PyFloat.prec; lia).
    exists (2 ^ 52)%positive, (e + n + 1).
    split; [reflexivity|]. split; [reflexivity|]. split; [lia|].
    replace (e + n + 1 - (e + n)) with 1 by lia. reflexivity.
  - assert (Hkr : 2 ^ 52 <= k < 2 ^ 53) by lia.
    destruct k as [|pk|pk]; try (simpl in Hkr; lia).
    assert (Hszk : Zpos (Pos.size pk) = 53) by (apply size_unique; exact Hkr).
    assert (Hsh2 : shr_fexp PyFloat.prec PyFloat.emax (Zpos pk) (e + n) loc_Exact =
                   (Build_shr_record (Zpos pk) false false, e + n)).
    { unfold shr_fexp. cbn [shr_record_of_loc Zdigits2]. rewrite digits2_size, Hszk.
      rewrite fexp_normal by (unfold PyFloat.emax, PyFloat.prec; lia).
      replace (53 + (e + n) - PyFloat.prec - (e + n)) with 0 by (unfold PyFloat.prec; lia).
      reflexivity. }
    rewrite Hsh2. cbn [shr_m].
    replace (e + n <=? PyFloat.emax - PyFloat.prec) with true
      by (symmetry; apply Z.leb_le; unfold PyFloat.emax, PyFloat.prec; lia).
    exists pk, (e + n).
    split; [reflexivity|]. split; [congruence|]. split; [lia|].
    rewrite Z.sub_diag. simpl. lia.
Qed.

Open Scope Q_scope.

Lemma Q2_pos e : 0 < Q2 e.
Proof. apply Qpower_0_lt. reflexivity. Qed.

Lemma Q2_add a b : Q2 (a + b) == Q2 a * Q2 b.
Proof. apply Qpower_plus. discriminate. Qed.

Lemma Q2_Z n : (0 <= n)%Z -> Q2 n == inject_Z (2 ^ n).
Proof. intros H. unfold Q2. rewrite Zpower_Qpower by exact H. reflexivity. Qed.

Lemma Q2_shift e n c : (0 <= n)%Z ->
  inject_Z c * Q2 (e + n) == inject_Z (c * 2 ^ n) * Q2 e.
Proof.
  intros H. rewrite Q2_add, (Q2_Z n H), inject_Z_mult. ring.
Qed.

Lemma scale_le a u v : 0 < a -> (u <= v)%Z -> inject_Z u * a <= inject_Z v * a.
Proof.
  intros Ha H. apply Qmult_le_compat_r; [|apply Qlt_le_weak; exact Ha].
  rewrite <- Zle_Qle. exact H.
Qed.

Lemma scale_lt a u v : 0 < a -> (u < v)%Z -> inject_Z u * a < inject_Z v * a.
Proof.
  intros Ha H. apply Qmult_lt_compat_r; [exact Ha|].
  rewrite <- Zlt_Qlt. exact H.
Qed.

Lemma scale_le_inv a u v : 0 < a -> inject_Z u * a <= inject_Z v * a -> (u <= v)%Z.
Proof.
  intros Ha H. apply Qmult_le_r in H; [|exact Ha]. rewrite Zle_Qle. exact H.
Qed.

Lemma scale_lt_inv a u v : 0 < a -> inject_Z u * a < inject_Z v * a -> (u < v)%Z.
Proof.
  intros Ha H. apply Qmult_lt_r in H; [|exact Ha]. rewrite Zlt_Qlt. exact H.
Qed.

Lemma scale_eq a u v : u = v -> inject_Z u * a == inject_Z v * a.
Proof. intros ->. reflexivity. Qed.

Lemma scale_eq_inv a u v : 0 < a -> inject_Z u * a == inject_Z v * a -> u = v.
Proof.
  intros Ha H. apply Z.le_antisymm; apply (scale_le_inv a); try exact Ha;
    rewrite H; apply Qle_refl.
Qed.

Lemma rnd_pos_compat x x' v v' : x == x' -> v == v' -> rnd_pos x v -> rnd_pos x' v'.
Proof.
  intros Ex Ev (k & E & H1 & H2 & H3 & H4 & H5 & H6 & H7).
  exists k, E. rewrite <- Ex, <- Ev. repeat split; try assumption; apply H2.
Qed.

Lemma rnd_pos_of_Z m n e :
  (0 <= n)%Z -> (2 ^ (52 + n) <= m < 2 ^ (53 + n))%Z ->
  rnd_pos (inject_Z m * Q2 e) (inject_Z (rne_shift m n) * Q2 (e + n)).
Proof.
  intros Hn Hm.
  assert (Hpn : (0 < 2 ^ n)%Z) by (apply Z.pow_pos_nonneg; lia).
  rewrite !Z.pow_add_r in Hm by lia.
  destruct (rne_shift_spec m n Hn ltac:(lia)) as [Hk1 [Hk2 Hk3]].
  set (k := rne_shift m n) in *.
  assert (Hq : (2 ^ 52 <= m / 2 ^ n < 2 ^ 53)%Z).
  { split; [apply Z.div_le_lower_bound; lia|apply Z.div_lt_upper_bound; lia]. }
  pose proof (Q2_pos e) as Ha.
  exists k, (e + n)%Z. rewrite !Q2_shift by exact Hn.
  assert (E2 : 2 * (inject_Z m * Q2 e) == inject_Z (2 * m) * Q2 e)
    by (rewrite inject_Z_mult; ring).
  rewrite E2.
  split; [reflexivity|]. split; [lia|].
  split; [apply scale_le; [exact Ha|lia]|].
  split; [apply scale_lt; [exact Ha|lia]|].
  split; [apply scale_le; [exact Ha|lia]|].
  split; [apply scale_le; [exact Ha|lia]|].
  intros [T|T]; apply scale_eq_inv in T; try exact Ha; apply Hk3; lia.
Qed.

Lemma rnd_pos_mono x y v w : x <= y -> rnd_pos x v -> rnd_pos y w -> v <= w.
Proof.
  intros Hxy (k & E & Hv & Hk & Hx1 & Hx2 & Hx3 & Hx4 & Hx5)
    (k' & E' & Hw & Hk' & Hy1 & Hy2 & Hy3 & Hy4 & Hy5).
  rewrite Hv, Hw.
  destruct (Z.lt_trichotomy E E') as [L|[EQ|G]].
  - replace E' with (E + (E' - E))%Z by lia.
    rewrite Q2_shift by lia. apply scale_le; [apply Q2_pos|].
    assert (2 ^ 1 <= 2 ^ (E' - E))%Z by (apply Z.pow_le_mono_r; lia).
    change (2 ^ 1)%Z with 2%Z in *. change (2 ^ 53)%Z with (2 * 2 ^ 52)%Z in *. nia.
  - subst E'. pose proof (Q2_pos E) as Ha.
    assert (Hc : (2 * k - 1 <= 2 * k' + 1)%Z).
    { apply (scale_le_inv (Q2 E)); [exact Ha|].
      apply Qle_trans with (2 * x); [exact Hx3|].
      apply Qle_trans with (2 * y); [lra|exact Hy4]. }
    destruct (Z.eq_dec k (k' + 1)) as [Ek|Nk]; [|apply scale_le; [exact Ha|lia]].
    exfalso.
    assert (Ec : inject_Z (2 * k - 1) * Q2 E == inject_Z (2 * k' + 1) * Q2 E)
      by (apply scale_eq; lia).
    assert (T1 : 2 * x == inject_Z (2 * k - 1) * Q2 E) by lra.
    assert (T2 : 2 * y == inject_Z (2 * k' + 1) * Q2 E) by lra.
    specialize (Hx5 (or_introl T1)). specialize (Hy5 (or_intror T2)).
    rewrite Ek, Z.even_add, Hy5 in Hx5. discriminate.
  - exfalso. replace E with (E' + (E - E'))%Z in Hx1 by lia.
    rewrite Q2_shift in Hx1 by lia.
    assert (2 ^ 1 <= 2 ^ (E - E'))%Z by (apply Z.pow_le_mono_r; lia).
    assert (inject_Z (2 ^ 53) * Q2 E' <= inject_Z (2 ^ 52 * 2 ^ (E - E')) * Q2 E').
    { apply scale_le; [apply Q2_pos|].
      change (2 ^ 1)%Z with 2%Z in *. change (2 ^ 53)%Z with (2 * 2 ^ 52)%Z. nia. }
    lra.
Qed.

Lemma rnd_pos_self m e :
  (2 ^ 52 <= m < 2 ^ 53)%Z -> rnd_pos (inject_Z m * Q2 e) (inject_Z m * Q2 e).
Proof.
  intros Hm. pose proof (Q2_pos e) as Ha.
  exists m, e.
  assert (E2 : 2 * (inject_Z m * Q2 e) == inject_Z (2 * m) * Q2 e)
    by (rewrite inject_Z_mult; ring).
  rewrite E2.
  split; [reflexivity|]. split; [lia|].
  split; [apply scale_le; [exact Ha|lia]|].
  split; [apply scale_lt; [exact Ha|lia]|].
  split; [apply scale_le; [exact Ha|lia]|].
  split; [apply scale_le; [exact Ha|lia]|].
  intros [T|T]; apply scale_eq_inv in T; try exact Ha; lia.
Qed.

Lemma rnd_pos_val_pos x v : rnd_pos x v -> 0 < v.
Proof.
  intros (k & E & Hv & Hk & _). rewrite Hv.
  apply Qlt_le_trans with (inject_Z 1 * Q2 E).
  - rewrite Qmult_1_l. apply Q2_pos.
  - apply scale_le; [apply Q2_pos|lia].
Qed.

Lemma rounds_to_compat x x' f : x == x' -> rounds_to x f -> rounds_to x' f.
Proof.
  intros E. destruct f as [s|s| |s m e]; simpl; try tauto.
  - intros H. rewrite <- E. exact H.
  - destruct s; intros [H1 H2]; (split; [rewrite <- E; exact H1|]).
    + eapply rnd_pos_compat; [|reflexivity|exact H2]. rewrite E. reflexivity.
    + eapply rnd_pos_compat; [exact E|reflexivity|exact H2].
Qed.

Lemma SF2Q_neg m e : SF2Q (S754_finite true m e) == - (inject_Z (Zpos m) * Q2 e).
Proof. simpl. change (inject_Z (Zneg m)) with (- inject_Z (Zpos m)). ring. Qed.

Lemma rounds_to_mono x y f g :
  x <= y -> rounds_to x f -> rounds_to y g -> SF2Q f <= SF2Q g.
Proof.
  intros Hxy Hf Hg.
  destruct f as [s|s| |s m e]; simpl in Hf; try tauto;
  destruct g as [s'|s'| |s' m' e']; simpl in Hg; try tauto.
  - apply Qle_refl.
  - destruct s'; destruct Hg as [Hg1 Hg2]; [lra|].
    pose proof (rnd_pos_val_pos _ _ Hg2). simpl. lra.
  - destruct s; destruct Hf as [Hf1 Hf2]; [|lra].
    pose proof (rnd_pos_val_pos _ _ Hf2). rewrite SF2Q_neg. simpl. lra.
  - destruct s; destruct Hf as [Hf1 Hf2]; destruct s'; destruct Hg as [Hg1 Hg2];
      try rewrite !SF2Q_neg; cbn [SF2Q cond_Zopp];
      pose proof (rnd_pos_val_pos _ _ Hf2); pose proof (rnd_pos_val_pos _ _ Hg2);
      try lra.
    + assert (inject_Z (Zpos m') * Q2 e' <= inject_Z (Zpos m) * Q2 e).
      { apply (rnd_pos_mono (- y) (- x)); [lra|assumption|assumption]. }
      lra.
    + apply (rnd_pos_mono x y); assumption.
Qed.

Lemma pos_iter_xO m d : Zpos (Pos.iter xO m d) = (Zpos m * 2 ^ Zpos d)%Z.
Proof.
  induction d as [|d IH] using Pos.peano_ind.
  - simpl. lia.
  - rewrite Pos.iter_succ, Pos2Z.inj_succ, Z.pow_succ_r by lia.
    rewrite (Pos2Z.inj_xO (Pos.iter xO m d)), IH. lia.
Qed.

Lemma shl_align_spec m e e' : (e' <= e)%Z ->
  Zpos (fst (shl_align m e e')) = (Zpos m * 2 ^ (e - e'))%Z /\
  snd (shl_align m e e') = e'.
Proof.
  intros H. unfold shl_align.
  destruct (e' - e)%Z as [|p|p] eqn:E; try lia.
  - cbn [fst snd]. replace (e - e')%Z with 0%Z by lia. simpl. lia.
  - cbn [fst snd]. rewrite pos_iter_xO. replace (e - e')%Z with (Zpos p) by lia. lia.
Qed.

Lemma size_mul_pow2 m k : (0 <= k)%Z -> forall p, Zpos p = (Zpos m * 2 ^ k)%Z ->
  Zpos (Pos.size p) = (Zpos (Pos.size m) + k)%Z.
Proof.
  intros Hk p Hp. apply size_unique. rewrite Hp.
  pose proof (size_bounds m) as B.
  assert (0 < 2 ^ k)%Z by (apply Z.pow_pos_nonneg; lia).
  replace (Zpos (Pos.size m) + k - 1)%Z with ((Zpos (Pos.size m) - 1) + k)%Z by lia.
  assert (0 < Zpos (Pos.size m))%Z by lia.
  rewrite !Z.pow_add_r by lia. nia.
Qed.

Lemma binary_round_spec s m e :
  let d := Zpos (Pos.size m) in
  (-1021 <= d + e)%Z -> (d + e <= 1023)%Z ->
  exists m' e',
    binary_round PyFloat.prec PyFloat.emax s m e = S754_finite s m' e' /\
    Pos.size m' = 53%positive /\
    (d + e - 53 <= e' <= d + e - 52)%Z /\
    rnd_pos (inject_Z (Zpos m) * Q2 e) (inject_Z (Zpos m') * Q2 e') /\
    ((d <= 53 \/ Zpos m mod 2 ^ (d - 53) = 0)%Z ->
     inject_Z (Zpos m') * Q2 e' == inject_Z (Zpos m) * Q2 e).
Proof.
  intros d Hlo Hhi. unfold binary_round.
  rewrite digits2_size, fexp_normal by (fold d; unfold PyFloat.emax, PyFloat.prec; lia).
  fold d. unfold PyFloat.prec at 1 2.
  destruct (Z.ltb_spec d 53) as [Hd|Hd].
  - (* short mantissa: aligned to 53 digits, no rounding *)
    destruct (shl_align_spec m e (d + e - 53) ltac:(lia)) as [Hm He].
    destruct (shl_align m e (d + e - 53)) as [mz ez]. cbn [fst snd] in Hm, He. subst ez.
    replace (e - (d + e - 53))%Z with (53 - d)%Z in Hm by lia.
    assert (Hsz : Zpos (Pos.size mz) = 53%Z).
    { rewrite (size_mul_pow2 m (53 - d) ltac:(lia) mz Hm). fold d. lia. }
    destruct (binary_round_aux_spec s mz (d + e - 53)) as (m' & e' & Hr & Hs' & He' & Hv);
      rewrite ?Hsz; try lia.
    rewrite Hsz in He', Hv. replace (53 - 53)%Z with 0%Z in He', Hv by lia.
    rewrite rne_shift_exact in Hv by (try lia; apply Z.mod_1_r).
    rewrite Z.div_1_r in Hv.
    assert (He'' : e' = (d + e - 53)%Z).
    { destruct (Z.eq_dec e' (d + e - 53)) as [E|N]; [exact E|exfalso].
      replace (e' - (d + e - 53 + 0))%Z with 1%Z in Hv by lia.
      pose proof (size_bounds m') as B1. pose proof (size_bounds mz) as B2.
      rewrite Hs' in B1. rewrite Hsz in B2.
      change (2 ^ 1)%Z with 2%Z in Hv.
      change (2 ^ (53 - 1))%Z with (2 ^ 52)%Z in *.
      change (2 ^ 53)%Z with (2 * 2 ^ 52)%Z in *. lia. }
    subst e'. replace (d + e - 53 - (d + e - 53 + 0))%Z with 0%Z in Hv by lia.
    rewrite Z.pow_0_r, Z.mul_1_r in Hv.
    assert (Hval : inject_Z (Zpos m') * Q2 (d + e - 53) == inject_Z (Zpos m) * Q2 e).
    { rewrite Hv, Hm. replace e with ((d + e - 53) + (53 - d))%Z at 2 by lia.
      rewrite Q2_shift by lia. reflexivity. }
    exists m', (d + e - 53)%Z.
    split; [exact Hr|]. split; [exact Hs'|]. split; [lia|]. split; [|intros _; exact Hval].
    eapply rnd_pos_compat; [exact Hval|reflexivity|].
    apply rnd_pos_self.
    pose proof (size_bounds m') as B1. rewrite Hs' in B1. exact B1.
  - (* long mantissa: rounded by the shift *)
    assert (Hal : shl_align m e (d + e - 53) = (m, e)).
    { unfold shl_align. destruct (d + e - 53 - e)%Z eqn:E; try reflexivity. lia. }
    rewrite Hal.
    destruct (binary_round_aux_spec s m e) as (m' & e' & Hr & Hs' & He' & Hv);
      fold d; try lia.
    fold d in He', Hv.
    assert (Hval : inject_Z (Zpos m') * Q2 e' ==
                   inject_Z (rne_shift (Zpos m) (d - 53)) * Q2 (e + (d - 53))).
    { rewrite <- Hv. replace e' with ((e + (d - 53)) + (e' - (e + (d - 53))))%Z at 1 by lia.
      rewrite Q2_shift by lia. reflexivity. }
    exists m', e'.
    split; [exact Hr|]. split; [exact Hs'|]. split; [lia|]. split.
    + eapply rnd_pos_compat; [reflexivity|symmetry; exact Hval|].
      apply rnd_pos_of_Z; [lia|].
      pose proof (size_bounds m) as B. fold d in B.
      replace (52 + (d - 53))%Z with (d - 1)%Z by lia.
      replace (53 + (d - 53))%Z with d by lia. exact B.
    + intros Hex.
      assert (Hmod : (Zpos m mod 2 ^ (d - 53) = 0)%Z).
      { destruct Hex as [Hle|Hmod]; [|exact Hmod].
        replace (d - 53)%Z with 0%Z by lia. apply Z.mod_1_r. }
      rewrite Hval, rne_shift_exact by (try lia; exact Hmod).
      rewrite Q2_shift by lia. apply scale_eq.
      assert (0 < 2 ^ (d - 53))%Z by (apply Z.pow_pos_nonneg; lia).
      pose proof (Z.div_mod (Zpos m) (2 ^ (d - 53)) ltac:(lia)). lia.
Qed.

Lemma size_range p a b : (2 ^ a <= Zpos p < 2 ^ b)%Z -> (0 <= a)%Z ->
  (a < Zpos (Pos.size p) <= b)%Z.
Proof.
  intros H Ha. pose proof (size_bounds p) as B. split.
  - destruct (Z.ltb_spec a (Zpos (Pos.size p))); [assumption|].
    assert (2 ^ Zpos (Pos.size p) <= 2 ^ a)%Z by (apply Z.pow_le_mono_r; lia). lia.
  - destruct (Z.leb_spec (Zpos (Pos.size p)) b); [assumption|].
    assert (2 ^ b <= 2 ^ (Zpos (Pos.size p) - 1))%Z by (apply Z.pow_le_mono_r; lia). lia.
Qed.

Lemma size_le_of_lt p B : (Zpos p < 2 ^ B)%Z -> (Zpos (Pos.size p) <= B)%Z.
Proof.
  intros H. pose proof (size_bounds p) as Bp.
  destruct (Z.leb_spec (Zpos (Pos.size p)) B); [assumption|].
  assert (2 ^ B <= 2 ^ (Zpos (Pos.size p) - 1))%Z.
  { destruct (Z.ltb_spec B 0); [rewrite (Z.pow_neg_r 2 B) by lia; lia|].
    apply Z.pow_le_mono_r; lia. }
  lia.
Qed.

Lemma fin_in_weaken lo hi lo' hi' f :
  (lo' <= lo)%Z -> (hi <= hi')%Z -> fin_in lo hi f -> fin_in lo' hi' f.
Proof. destruct f; simpl; intros; try tauto. split; [tauto|lia]. Qed.

Lemma binary_round_rounds s m e B :
  (Zpos m < 2 ^ B)%Z -> (-1022 <= e)%Z -> (B + e <= 1023)%Z ->
  let f := binary_round PyFloat.prec PyFloat.emax s m e in
  let x := inject_Z (Zpos m) * Q2 e in
  rounds_to (if s then - x else x) f /\ fin_in (e - 52) (B + e - 52) f /\
  ((Zpos m < 2 ^ 53)%Z -> SF2Q f == (if s then - x else x)).
Proof.
  intros HB Hlo Hhi f x.
  pose proof (size_le_of_lt m B HB) as Hsz.
  assert (0 < Zpos (Pos.size m))%Z by lia.
  destruct (binary_round_spec s m e) as (m' & e' & Hr & Hs' & He' & Hrnd & Hex); try lia.
  subst f. rewrite Hr.
  assert (Hxpos : 0 < x).
  { subst x. apply Qmult_lt_0_compat; [reflexivity|apply Q2_pos]. }
  split; [|split].
  - simpl. destruct s.
    + split; [lra|]. eapply rnd_pos_compat; [|reflexivity|exact Hrnd]. subst x. ring.
    + split; [exact Hxpos|exact Hrnd].
  - simpl. split; [exact Hs'|lia].
  - intros Hlt. assert (Hd : (Zpos (Pos.size m) <= 53)%Z) by (apply size_le_of_lt; exact Hlt).
    specialize (Hex (or_introl Hd)).
    destruct s; [rewrite SF2Q_neg, Hex|cbn [SF2Q cond_Zopp]; rewrite Hex]; reflexivity.
Qed.

Lemma normalize_rounds M e B :
  (Z.abs M < 2 ^ B)%Z -> (-1022 <= e)%Z -> (B + e <= 1023)%Z ->
  let f := binary_normalize PyFloat.prec PyFloat.emax M e false in
  rounds_to (inject_Z M * Q2 e) f /\ fin_in (e - 52) (B + e - 52) f /\
  ((Z.abs M < 2 ^ 53)%Z -> SF2Q f == inject_Z M * Q2 e).
Proof.
  intros HB Hlo Hhi. destruct M as [|p|p]; cbn [binary_normalize].
  - simpl. repeat split; intros; ring.
  - exact (binary_round_rounds false p e B HB Hlo Hhi).
  - destruct (binary_round_rounds true p e B HB Hlo Hhi) as (H1 & H2 & H3).
    assert (E : - (inject_Z (Zpos p) * Q2 e) == inject_Z (Zneg p) * Q2 e).
    { change (inject_Z (Zneg p)) with (- inject_Z (Zpos p)). ring. }
    split; [eapply rounds_to_compat; [exact E|exact H1]|]. split; [exact H2|].
    intros Hlt. rewrite <- E. apply H3. exact Hlt.
Qed.

Lemma rounds_to_self lo hi f : fin_in lo hi f -> rounds_to (SF2Q f) f.
Proof.
  destruct f as [s|s| |s m e]; simpl; try tauto; [reflexivity|].
  intros [Hs _]. pose proof (size_bounds m) as B. rewrite Hs in B.
  change (2 ^ (53 - 1))%Z with (2 ^ 52)%Z in B.
  pose proof (rnd_pos_self (Zpos m) e B) as R.
  pose proof (rnd_pos_val_pos _ _ R) as P.
  destruct s; cbn [cond_Zopp].
  - change (inject_Z (Zneg m)) with (- inject_Z (Zpos m)).
    assert (E : - inject_Z (Zpos m) * Q2 e == - (inject_Z (Zpos m) * Q2 e)) by ring.
    split.
    + rewrite E. revert P. generalize (inject_Z (Zpos m) * Q2 e). intros v P. lra.
    + eapply rnd_pos_compat; [|reflexivity|exact R]. rewrite inject_Z_opp. ring.
  - split; [exact P|exact R].
Qed.

Lemma binary_round_long s m e : (53 <= Zpos (Pos.size m))%Z ->
  (-1074 <= Zpos (Pos.size m) + e - 53)%Z ->
  binary_round PyFloat.prec PyFloat.emax s m e = binary_round_aux PyFloat.prec PyFloat.emax s (Zpos m) e loc_Exact.
Proof.
  intros Hd Hn. unfold binary_round.
  rewrite digits2_size, fexp_normal by (unfold PyFloat.emax, PyFloat.prec; lia).
  unfold shl_align. destruct (Zpos (Pos.size m) + e - PyFloat.prec - e)%Z eqn:E; try reflexivity.
  unfold PyFloat.prec in E. lia.
Qed.

Lemma SFmul_rounds lo hi lo' hi' f g :
  fin_in lo hi f -> fin_in lo' hi' g ->
  (-1022 <= lo + lo')%Z -> (hi + hi' + 54 <= 971)%Z ->
  rounds_to (SF2Q f * SF2Q g) (SFmul PyFloat.prec PyFloat.emax f g) /\
  fin_in (lo + lo' + 52) (hi + hi' + 54) (SFmul PyFloat.prec PyFloat.emax f g).
Proof.
  intros Hf Hg Hlo Hhi.
  destruct f as [s|s| |s m e]; simpl in Hf; try tauto;
  destruct g as [s'|s'| |s' m' e']; simpl in Hg; try tauto;
  try (simpl; split; [ring|exact I]).
  destruct Hf as [Hs He]. destruct Hg as [Hs' He'].
  pose proof (size_bounds m) as B. rewrite Hs in B.
  pose proof (size_bounds m') as B'. rewrite Hs' in B'.
  change (2 ^ (53 - 1))%Z with (2 ^ 52)%Z in *.
  assert (HP : (2 ^ 104 <= Zpos (m * m') < 2 ^ 106)%Z).
  { rewrite Pos2Z.inj_mul.
    change (2 ^ 104)%Z with (2 ^ 52 * 2 ^ 52)%Z. change (2 ^ 106)%Z with (2 ^ 53 * 2 ^ 53)%Z.
    nia. }
  pose proof (size_range _ _ _ HP ltac:(lia)) as Hd.
  cbn [SFmul].
  rewrite <- binary_round_long by lia.
  destruct (binary_round_rounds (xorb s s') (m * m') (e + e') 106) as (R1 & R2 & _);
    try lia.
  destruct (binary_round_spec (xorb s s') (m * m') (e + e')) as (m2 & e2 & Hr & Hs2 & He2 & _);
    try lia.
  split.
  - eapply rounds_to_compat; [|exact R1].
    cbn [SF2Q].
    destruct s, s'; cbn [xorb cond_Zopp];
      rewrite Pos2Z.inj_mul, inject_Z_mult, Q2_add, ?inject_Z_opp; ring.
  - rewrite Hr. simpl. split; [exact Hs2|lia].
Qed.

Lemma aligned_value s m e ez : (ez <= e)%Z ->
  inject_Z (cond_Zopp s (Zpos m * 2 ^ (e - ez))) * Q2 ez == SF2Q (S754_finite s m e).
Proof.
  intros H. cbn [SF2Q].
  pose proof (Q2_shift ez (e - ez) (Zpos m) ltac:(lia)) as E.
  replace (ez + (e - ez))%Z with e in E by lia.
  destruct s; cbn [cond_Zopp]; rewrite ?inject_Z_opp.
  - transitivity (- (inject_Z (Zpos m) * Q2 e)); [rewrite E; ring|ring].
  - symmetry. exact E.
Qed.

Lemma cond_Zopp_abs s z : Z.abs (cond_Zopp s z) = Z.abs z.
Proof. destruct s; simpl; [apply Z.abs_opp|reflexivity]. Qed.

Lemma SFadd_rounds lo hi f g :
  fin_in lo hi f -> fin_in lo hi g -> (-1022 <= lo)%Z -> (hi <= 969)%Z ->
  rounds_to (SF2Q f + SF2Q g) (SFadd PyFloat.prec PyFloat.emax f g) /\
  fin_in (lo - 52) (hi + 2) (SFadd PyFloat.prec PyFloat.emax f g).
Proof.
  intros Hf Hg Hlo Hhi.
  destruct f as [s|s| |s m e]; simpl in Hf; try tauto;
  destruct g as [s'|s'| |s' m' e']; simpl in Hg; try tauto.
  - split; [|destruct s, s'; exact I]. destruct s, s'; cbn [SFadd rounds_to SF2Q]; lra.
  - split.
    + eapply rounds_to_compat; [|apply (rounds_to_self lo hi); exact Hg].
      cbn [SF2Q SFadd]. ring.
    + simpl. split; [tauto|lia].
  - split.
    + eapply rounds_to_compat; [|apply (rounds_to_self lo hi); exact Hf].
      cbn [SF2Q SFadd]. ring.
    + simpl. split; [tauto|lia].
  - destruct Hf as [Hs He]. destruct Hg as [Hs' He'].
    cbn [SFadd]. set (ez := Z.min e e').
    destruct (shl_align_spec m e ez ltac:(subst ez; lia)) as [A1 _].
    destruct (shl_align_spec m' e' ez ltac:(subst ez; lia)) as [A2 _].
    rewrite A1, A2.
    set (M := (cond_Zopp s (Zpos m * 2 ^ (e - ez)) + cond_Zopp s' (Zpos m' * 2 ^ (e' - ez)))%Z).
    pose proof (size_bounds m) as B. rewrite Hs in B.
    pose proof (size_bounds m') as B'. rewrite Hs' in B'.
    assert (HM : (Z.abs M < 2 ^ (54 + Z.max e e' - ez))%Z).
    { subst M.
      eapply Z.le_lt_trans; [apply Z.abs_triangle|].
      rewrite !cond_Zopp_abs.
      assert (P1 : (0 < 2 ^ (e - ez))%Z) by (apply Z.pow_pos_nonneg; subst ez; lia).
      assert (P2 : (0 < 2 ^ (e' - ez))%Z) by (apply Z.pow_pos_nonneg; subst ez; lia).
      assert (L1 : (2 ^ (e - ez) <= 2 ^ (Z.max e e' - ez))%Z)
        by (apply Z.pow_le_mono_r; subst ez; lia).
      assert (L2 : (2 ^ (e' - ez) <= 2 ^ (Z.max e e' - ez))%Z)
        by (apply Z.pow_le_mono_r; subst ez; lia).
      replace (54 + Z.max e e' - ez)%Z with (54 + (Z.max e e' - ez))%Z by lia.
      rewrite Z.pow_add_r by (subst ez; lia).
      rewrite !Z.abs_eq by lia.
      change (2 ^ 54)%Z with (2 * 2 ^ 53)%Z. nia. }
    destruct (normalize_rounds M ez (54 + Z.max e e' - ez) HM) as (R1 & R2 & _);
      try (subst ez; lia).
    split.
    + eapply rounds_to_compat; [|exact R1].
      subst M. rewrite inject_Z_plus, Qmult_plus_distr_l.
      rewrite !aligned_value by (subst ez; lia). reflexivity.
    + eapply fin_in_weaken; [| |exact R2]; subst ez; lia.
Qed.

Lemma float_of_int_rounds z B : (Z.abs z < 2 ^ B)%Z -> (B <= 1023)%Z ->
  exists f, PyFloat.float_of_int z = Ok f /\ rounds_to (inject_Z z) f /\
            fin_in (-52) (B - 52) f /\
            ((Z.abs z < 2 ^ 53)%Z -> SF2Q f == inject_Z z).
Proof.
  intros HB Hhi.
  destruct (normalize_rounds z 0 B HB) as (R1 & R2 & R3); try lia.
  assert (E : inject_Z z * Q2 0 == inject_Z z) by (unfold Q2; simpl; ring).
  exists (binary_normalize PyFloat.prec PyFloat.emax z 0 false).
  split; [|split; [|split]].
  - unfold PyFloat.float_of_int.
    destruct (binary_normalize PyFloat.prec PyFloat.emax z 0 false); simpl in R2; try tauto; reflexivity.
  - eapply rounds_to_compat; [exact E|exact R1].
  - eapply fin_in_weaken; [| |exact R2]; lia.
  - intros H. rewrite (R3 H). exact E.
Qed.

Lemma Qtrunc_comp x y : x == y -> Qtrunc x = Qtrunc y.
Proof.
  intros E. unfold Qtrunc. rewrite (Qfloor_comp x y E), (Qceiling_comp x y E).
  rewrite (Qleb_comp 0 0 (Qeq_refl 0) x y E). reflexivity.
Qed.

Lemma Qtrunc_Z z : Qtrunc (inject_Z z) = z.
Proof. unfold Qtrunc. rewrite Qfloor_Z, Qceiling_Z. destruct (Qle_bool 0 (inject_Z z)); reflexivity. Qed.

Lemma Qtrunc_mono x y : x <= y -> (Qtrunc x <= Qtrunc y)%Z.
Proof.
  intros H. unfold Qtrunc.
  destruct (Qle_bool 0 x) eqn:Ex; destruct (Qle_bool 0 y) eqn:Ey.
  - apply Qfloor_resp_le; exact H.
  - apply Qle_bool_iff in Ex.
    assert (0 <= y) by (eapply Qle_trans; eassumption).
    apply Qle_bool_iff in H0. congruence.
  - assert (Hx : x < 0).
    { apply Qnot_le_lt. intros C. apply Qle_bool_iff in C. congruence. }
    apply Qle_bool_iff in Ey.
    assert (Qceiling x <= 0)%Z.
    { rewrite <- (Qceiling_Z 0). apply Qceiling_resp_le. apply Qlt_le_weak. exact Hx. }
    assert (0 <= Qfloor y)%Z.
    { rewrite <- (Qfloor_Z 0). apply Qfloor_resp_le. exact Ey. }
    lia.
  - apply Qceiling_resp_le; exact H.
Qed.

Lemma int_of_float_trunc lo hi f : fin_in lo hi f ->
  PyFloat.int_of_float f = Ok (Qtrunc (SF2Q f)).
Proof.
  destruct f as [s|s| |s m e]; simpl fin_in; try tauto; intros H.
  cbn [PyFloat.int_of_float]. f_equal.
  { 
    destruct (Z.leb_spec 0 e) as [He|He].
    + rewrite Z.shiftl_mul_pow2 by exact He.
      rewrite (Qtrunc_comp (SF2Q (S754_finite s m e))
                 (inject_Z (cond_Zopp s (Zpos m * 2 ^ e)))).
      * rewrite Qtrunc_Z. reflexivity.
      * rewrite <- (aligned_value s m e 0) by exact He.
        rewrite Z.sub_0_r. unfold Q2. simpl. ring.
    + rewrite <- (Z.opp_involutive e) at 1.
      rewrite Z.shiftl_opp_r, Z.shiftr_div_pow2 by lia.
      assert (HP : (0 < 2 ^ (- e))%Z) by (apply Z.pow_pos_nonneg; lia).
      assert (Ev : inject_Z (Zpos m) * Q2 e == inject_Z (Zpos m) / inject_Z (2 ^ (- e))).
      { unfold Qdiv. rewrite <- (Z.opp_involutive e) at 1.
        unfold Q2. rewrite Qpower_opp. fold (Q2 (- e)). rewrite Q2_Z by lia. reflexivity. }
      assert (Hnn : 0 <= inject_Z (Zpos m) * Q2 e).
      { apply Qlt_le_weak. apply Qmult_lt_0_compat; [reflexivity|apply Q2_pos]. }
      destruct s; cbn [cond_Zopp].
      * rewrite (Qtrunc_comp _ (- (inject_Z (Zpos m) * Q2 e))) by apply SF2Q_neg.
        unfold Qtrunc.
        assert (Hneg : Qle_bool 0 (- (inject_Z (Zpos m) * Q2 e)) = false).
        { destruct (Qle_bool 0 (- (inject_Z (Zpos m) * Q2 e))) eqn:C; [|reflexivity].
          apply Qle_bool_iff in C.
          assert (0 < inject_Z (Zpos m) * Q2 e)
            by (apply Qmult_lt_0_compat; [reflexivity|apply Q2_pos]).
          revert C H0. generalize (inject_Z (Zpos m) * Q2 e). intros; lra. }
        rewrite Hneg. unfold Qceiling.
        rewrite (Qfloor_comp _ (inject_Z (Zpos m) / inject_Z (2 ^ (- e)))).
        -- rewrite <- Zdiv_Qdiv. reflexivity.
        -- rewrite <- Ev. ring.
      * cbn [SF2Q cond_Zopp]. unfold Qtrunc.
        apply Qle_bool_iff in Hnn. rewrite Hnn.
        rewrite (Qfloor_comp _ _ Ev), <- Zdiv_Qdiv. reflexivity.
  }
Qed.

Open Scope Z_scope.

(** * Interpolation frames *)

Lemma step_range_cases (P : Z -> Prop) :
  Forall P step_range -> forall s, 1 <= s <= 20 -> P s.
Proof.
  intros H s Hs. rewrite Forall_forall in H. apply H.
  unfold step_range. apply in_map_iff. exists (Z.to_nat s). split; [lia|].
  apply in_seq. change (Z.to_nat INTERPOLATION_STEPS) with 20%nat. lia.
Qed.

Lemma SF2Q_pos m e : (0 < SF2Q (S754_finite false m e))%Q.
Proof. cbn [SF2Q cond_Zopp]. apply Qmult_lt_0_compat; [reflexivity|apply Q2_pos]. Qed.

Lemma step_ratio_facts s : 1 <= s <= 20 ->
  exists c, PyFloat.int_truediv s INTERPOLATION_STEPS = Ok c /\
            fin_in (-57) (-52) c /\ (0 < SF2Q c)%Q /\ (SF2Q c <= 1)%Q.
Proof.
  revert s. apply step_range_cases.
  repeat (apply Forall_cons || apply Forall_nil);
    (eexists; split; [vm_compute; reflexivity|];
     split; [simpl; split; [reflexivity|lia]|];
     split; [apply SF2Q_pos|apply Qle_bool_iff; vm_compute; reflexivity]).
Qed.

Lemma step_ratio_mono s : 1 <= s <= 19 ->
  exists c c', PyFloat.int_truediv s INTERPOLATION_STEPS = Ok c /\
               PyFloat.int_truediv (s + 1) INTERPOLATION_STEPS = Ok c' /\
               (SF2Q c <= SF2Q c')%Q.
Proof.
  intros Hs. revert s Hs.
  assert (H : Forall (fun s => s <= 19 -> exists c c',
               PyFloat.int_truediv s INTERPOLATION_STEPS = Ok c /\
               PyFloat.int_truediv (s + 1) INTERPOLATION_STEPS = Ok c' /\
               (SF2Q c <= SF2Q c')%Q) step_range).
  { repeat (apply Forall_cons || apply Forall_nil);
      (intros _; eexists; eexists; split; [vm_compute; reflexivity|];
       split; [vm_compute; reflexivity|apply Qle_bool_iff; vm_compute; reflexivity]). }
  intros s Hs. apply (step_range_cases _ H s); lia.
Qed.

Lemma step_ratio_last :
  PyFloat.int_truediv 20 INTERPOLATION_STEPS = Ok (S754_finite false (2 ^ 52) (-52)).
Proof. vm_compute. reflexivity. Qed.

Lemma SF2Q_one : (SF2Q (S754_finite false (2 ^ 52) (-52)) == 1)%Q.
Proof. vm_compute. reflexivity. Qed.

(* the three roundings behind one frame *)
Lemma frame_rounds start end_ s :
  Z.abs start < 2 ^ 53 -> Z.abs (end_ - start) < 2 ^ 53 -> 1 <= s <= 20 ->
  exists c p x,
    PyFloat.int_truediv s INTERPOLATION_STEPS = Ok c /\
    (0 < SF2Q c)%Q /\ (SF2Q c <= 1)%Q /\
    PyFloat.int_mul_float (end_ - start) c = Ok p /\
    rounds_to (inject_Z (end_ - start) * SF2Q c) p /\
    rounds_to (inject_Z start + SF2Q p) x /\
    frame start end_ s = Ok (Qtrunc (SF2Q x)).
Proof.
  intros Hst Hd Hs.
  destruct (step_ratio_facts s Hs) as (c & Hc & Fc & Pc & Lc).
  destruct (float_of_int_rounds (end_ - start) 53 Hd ltac:(lia)) as (fd & Hfd & Rd & Fd & Ed).
  destruct (float_of_int_rounds start 53 Hst ltac:(lia)) as (fs & Hfs & Rs & Fs & Es).
  specialize (Ed Hd). specialize (Es Hst).
  destruct (SFmul_rounds (-52) 1 (-57) (-52) fd c Fd Fc ltac:(lia) ltac:(lia)) as [Rp Fp].
  destruct (SFadd_rounds (-57) 3 fs (PyFloat.mul fd c)) as [Rx Fx]; try lia.
  { eapply fin_in_weaken; [| |exact Fs]; lia. }
  { eapply fin_in_weaken; [| |exact Fp]; lia. }
  exists c, (PyFloat.mul fd c), (PyFloat.add fs (PyFloat.mul fd c)).
  split; [exact Hc|]. split; [exact Pc|]. split; [exact Lc|].
  split; [unfold PyFloat.int_mul_float; rewrite Hfd; reflexivity|].
  split; [eapply rounds_to_compat; [|exact Rp]; rewrite Ed; reflexivity|].
  split; [eapply rounds_to_compat; [|exact Rx]; rewrite Es; reflexivity|].
  unfold frame. rewrite Hc. cbn [rbind].
  unfold PyFloat.int_mul_float. rewrite Hfd. cbn [rbind].
  unfold PyFloat.int_add_float. rewrite Hfs. cbn [rbind].
  apply (int_of_float_trunc _ _ _ Fx).
Qed.

Lemma rounds_to_int z : Z.abs z < 2 ^ 53 ->
  exists f, rounds_to (inject_Z z) f /\ (SF2Q f == inject_Z z)%Q.
Proof.
  intros H. destruct (float_of_int_rounds z 53 H ltac:(lia)) as (f & _ & R & _ & E).
  exists f. split; [exact R|apply E; exact H].
Qed.

Lemma rounds_to_le_int x f z : Z.abs z < 2 ^ 53 ->
  rounds_to x f -> (x <= inject_Z z)%Q -> (SF2Q f <= inject_Z z)%Q.
Proof.
  intros Hz R L. destruct (rounds_to_int z Hz) as (g & Rg & Eg).
  rewrite <- Eg. exact (rounds_to_mono _ _ _ _ L R Rg).
Qed.

Lemma rounds_to_ge_int x f z : Z.abs z < 2 ^ 53 ->
  rounds_to x f -> (inject_Z z <= x)%Q -> (inject_Z z <= SF2Q f)%Q.
Proof.
  intros Hz R L. destruct (rounds_to_int z Hz) as (g & Rg & Eg).
  rewrite <- Eg. exact (rounds_to_mono _ _ _ _ L Rg R).
Qed.

Lemma Qtrunc_between q a b : (inject_Z a <= q)%Q -> (q <= inject_Z b)%Q ->
  a <= Qtrunc q <= b.
Proof.
  intros H1 H2. split.
  - rewrite <- (Qtrunc_Z a). apply Qtrunc_mono. exact H1.
  - rewrite <- (Qtrunc_Z b). apply Qtrunc_mono. exact H2.
Qed.

Lemma frame_between start end_ s :
  Z.abs start < 2 ^ 53 -> Z.abs end_ < 2 ^ 53 -> Z.abs (end_ - start) < 2 ^ 53 ->
  1 <= s <= 20 ->
  exists v, frame start end_ s = Ok v /\ Z.min start end_ <= v <= Z.max start end_.
Proof.
  intros Hst Hen Hd Hs.
  destruct (frame_rounds start end_ s Hst Hd Hs) as (c & p & x & _ & Pc & Lc & _ & Rp & Rx & Hf).
  exists (Qtrunc (SF2Q x)). split; [exact Hf|].
  assert (Hq : (inject_Z end_ == inject_Z start + inject_Z (end_ - start))%Q).
  { rewrite <- inject_Z_plus. replace (start + (end_ - start)) with end_ by lia. reflexivity. }
  assert (Hsgn : (0 <= inject_Z (end_ - start))%Q <-> start <= end_).
  { rewrite <- (Zle_Qle 0). lia. }
  destruct (Z.le_ge_cases start end_) as [Hle|Hge].
  - rewrite Z.min_l, Z.max_r by lia.
    assert (Hd0 : (0 <= inject_Z (end_ - start))%Q) by (apply Hsgn; exact Hle).
    assert (P1 : (inject_Z 0 <= SF2Q p)%Q).
    { apply (rounds_to_ge_int _ _ 0 ltac:(simpl; lia) Rp).
      change (inject_Z 0) with 0%Q. revert Hd0 Pc.
      generalize (inject_Z (end_ - start)) (SF2Q c). intros; nra. }
    assert (P2 : (SF2Q p <= inject_Z (end_ - start))%Q).
    { apply (rounds_to_le_int _ _ _ Hd Rp). revert Hd0 Pc Lc.
      generalize (inject_Z (end_ - start)) (SF2Q c). intros; nra. }
    change (inject_Z 0) with 0%Q in P1.
    apply Qtrunc_between.
    + apply (rounds_to_ge_int _ _ _ Hst Rx). lra.
    + apply (rounds_to_le_int _ _ _ Hen Rx). lra.
  - rewrite Z.min_r, Z.max_l by lia.
    assert (Hd0 : (inject_Z (end_ - start) <= 0)%Q) by (rewrite <- (Zle_Qle _ 0); lia).
    assert (P1 : (SF2Q p <= inject_Z 0)%Q).
    { apply (rounds_to_le_int _ _ 0 ltac:(simpl; lia) Rp).
      change (inject_Z 0) with 0%Q. revert Hd0 Pc.
      generalize (inject_Z (end_ - start)) (SF2Q c). intros; nra. }
    assert (P2 : (inject_Z (end_ - start) <= SF2Q p)%Q).
    { apply (rounds_to_ge_int _ _ _ Hd Rp). revert Hd0 Pc Lc.
      generalize (inject_Z (end_ - start)) (SF2Q c). intros; nra. }
    change (inject_Z 0) with 0%Q in P1.
    apply Qtrunc_between.
    + apply (rounds_to_ge_int _ _ _ Hen Rx). lra.
    + apply (rounds_to_le_int _ _ _ Hst Rx). lra.
Qed.

Lemma frame_step_mono start end_ s :
  Z.abs start < 2 ^ 53 -> Z.abs (end_ - start) < 2 ^ 53 -> 1 <= s <= 19 ->
  exists v w, frame start end_ s = Ok v /\ frame start end_ (s + 1) = Ok w /\
              (start <= end_ -> v <= w) /\ (end_ <= start -> w <= v).
Proof.
  intros Hst Hd Hs.
  destruct (frame_rounds start end_ s Hst Hd ltac:(lia))
    as (c & p & x & Hc & Pc & Lc & _ & Rp & Rx & Hf).
  destruct (frame_rounds start end_ (s + 1) Hst Hd ltac:(lia))
    as (c' & p' & x' & Hc' & Pc' & Lc' & _ & Rp' & Rx' & Hf').
  destruct (step_ratio_mono s Hs) as (c0 & c0' & E0 & E0' & Hcc).
  rewrite Hc in E0. rewrite Hc' in E0'. injection E0 as <-. injection E0' as <-.
  exists (Qtrunc (SF2Q x)), (Qtrunc (SF2Q x')).
  split; [exact Hf|]. split; [exact Hf'|]. split; intros Hord.
  - assert (Hd0 : (0 <= inject_Z (end_ - start))%Q) by (rewrite <- (Zle_Qle 0); lia).
    assert (Hp : (SF2Q p <= SF2Q p')%Q).
    { apply (rounds_to_mono (inject_Z (end_ - start) * SF2Q c)
               (inject_Z (end_ - start) * SF2Q c')); try assumption.
      revert Hd0 Hcc. generalize (inject_Z (end_ - start)) (SF2Q c) (SF2Q c').
      intros; nra. }
    apply Qtrunc_mono.
    apply (rounds_to_mono (inject_Z start + SF2Q p) (inject_Z start + SF2Q p')); try assumption.
    lra.
  - assert (Hd0 : (inject_Z (end_ - start) <= 0)%Q) by (rewrite <- (Zle_Qle _ 0); lia).
    assert (Hp : (SF2Q p' <= SF2Q p)%Q).
    { apply (rounds_to_mono (inject_Z (end_ - start) * SF2Q c')
               (inject_Z (end_ - start) * SF2Q c)); try assumption.
      revert Hd0 Hcc. generalize (inject_Z (end_ - start)) (SF2Q c) (SF2Q c').
      intros; nra. }
    apply Qtrunc_mono.
    apply (rounds_to_mono (inject_Z start + SF2Q p') (inject_Z start + SF2Q p)); try assumption.
    lra.
Qed.

Lemma frame_last start end_ :
  Z.abs start < 2 ^ 53 -> Z.abs end_ < 2 ^ 53 -> Z.abs (end_ - start) < 2 ^ 53 ->
  frame start end_ 20 = Ok end_.
Proof.
  intros Hst Hen Hd.
  destruct (frame_rounds start end_ 20 Hst Hd ltac:(lia))
    as (c & p & x & Hc & _ & _ & _ & Rp & Rx & Hf).
  rewrite step_ratio_last in Hc. injection Hc as <-.
  rewrite Hf. f_equal.
  assert (Hq : (inject_Z end_ == inject_Z start + inject_Z (end_ - start))%Q).
  { rewrite <- inject_Z_plus. replace (start + (end_ - start)) with end_ by lia. reflexivity. }
  pose proof SF2Q_one as E1.
  assert (Hp : (SF2Q p == inject_Z (end_ - start))%Q).
  { apply Qle_antisym.
    - apply (rounds_to_le_int _ _ _ Hd Rp). rewrite E1. lra.
    - apply (rounds_to_ge_int _ _ _ Hd Rp). rewrite E1. lra. }
  assert (Hlo : end_ <= Qtrunc (SF2Q x) <= end_).
  { apply Qtrunc_between.
    - apply (rounds_to_ge_int _ _ _ Hen Rx). lra.
    - apply (rounds_to_le_int _ _ _ Hen Rx). lra. }
  lia.
Qed.
(** * Effects of the servo updates and of a motion *)

Lemma land_127_byte v : 0 <= Z.land v 0x7F < 256.
Proof.
  change 0x7F with (Z.ones 7). rewrite Z.land_ones by lia.
  pose proof (Z.mod_pos_bound v (2 ^ 7) ltac:(lia)). change (2 ^ 7) with 128 in *. lia.
Qed.

Lemma set_target_ok channel target : 0 <= channel < 256 ->
  Maestro.set_target channel target = Ok (command channel target).
Proof.
  intros Hc. unfold Maestro.set_target, Maestro.bytearray, command.
  pose proof (land_127_byte target) as B1.
  pose proof (land_127_byte (Z.shiftr target 7)) as B2.
  cbn [forallb].
  replace (0 <=? channel) with true by (symmetry; apply Z.leb_le; lia).
  replace (channel <? 256) with true by (symmetry; apply Z.ltb_lt; lia).
  replace (0 <=? Z.land target 127) with true by (symmetry; apply Z.leb_le; lia).
  replace (Z.land target 127 <? 256) with true by (symmetry; apply Z.ltb_lt; lia).
  replace (0 <=? Z.land (Z.shiftr target 7) 127) with true by (symmetry; apply Z.leb_le; lia).
  replace (Z.land (Z.shiftr target 7) 127 <? 256) with true by (symmetry; apply Z.ltb_lt; lia).
  reflexivity.
Qed.

Lemma update_servo_ok i v st : (i < 4)%nat ->
  update_servo (Z.of_nat i) v st =
  (Ok tt, mkState (current_position st) (trace st ++ servo_events i v)).
Proof.
  intros Hi. unfold update_servo, bind, lift.
  rewrite set_target_ok by lia.
  unfold emit at 1. cbn [current_position trace].
  assert (Hex : existsb (Z.eqb (Z.of_nat i)) servo_channels = true).
  { do 4 (destruct i as [|i]; [reflexivity|]). lia. }
  rewrite Hex. unfold emit. cbn [current_position trace].
  rewrite <- app_assoc. reflexivity.
Qed.

Lemma run_frames_ok i steps st : (i < 4)%nat ->
  run_frames i steps st =
  (Ok tt, mkState (current_position st) (trace st ++ frame_events i steps)).
Proof.
  intros Hi. revert st. induction steps as [|v steps IH]; intros st.
  - unfold run_frames, frame_events. simpl. unfold ret. rewrite app_nil_r.
    destruct st; reflexivity.
  - unfold run_frames in *. cbn [for_each]. unfold bind at 1 2.
    rewrite update_servo_ok by exact Hi. unfold emit.
    cbn [current_position trace]. rewrite IH. cbn [current_position trace].
    unfold frame_events. cbn [flat_map]. rewrite <- !app_assoc. reflexivity.
Qed.

Lemma rmap_ok {A B} (f : A -> result B) (g : A -> B) l :
  (forall a, In a l -> f a = Ok (g a)) -> rmap f l = Ok (map g l).
Proof.
  induction l as [|a l IH]; intros H; [reflexivity|].
  cbn [rmap map]. rewrite (H a (or_introl eq_refl)). cbn [rbind].
  rewrite IH by (intros b Hb; apply H; right; exact Hb). reflexivity.
Qed.

Lemma in_step_range s : In s step_range -> 1 <= s <= 20.
Proof.
  unfold step_range. rewrite in_map_iff. intros (n & <- & Hn).
  apply in_seq in Hn. change (Z.to_nat INTERPOLATION_STEPS) with 20%nat in Hn. lia.
Qed.

Lemma frame_value_ok start end_ s :
  exact_int start -> exact_int end_ -> exact_int (end_ - start) -> 1 <= s <= 20 ->
  frame start end_ s = Ok (frame_value start end_ s).
Proof.
  intros Hst Hen Hd Hs.
  destruct (frame_between start end_ s Hst Hen Hd Hs) as (v & Hv & _).
  unfold frame_value. rewrite Hv. reflexivity.
Qed.

Lemma interpolation_frames_ok start end_ :
  exact_int start -> exact_int end_ -> exact_int (end_ - start) ->
  interpolation_frames start end_ = Ok (map (frame_value start end_) step_range).
Proof.
  intros Hst Hen Hd. unfold interpolation_frames. apply rmap_ok.
  intros s Hs. apply frame_value_ok; try assumption. apply in_step_range; exact Hs.
Qed.

Lemma move_locked_channel targets st p0 p1 p2 p3 :
  current_position st = [p0; p1; p2; p3] ->
  move_channel targets 2 st =
  (Ok tt, mkState [p0; p1; 5000; p3] (trace st ++ servo_events 2 5000)).
Proof.
  intros Hp. unfold move_channel. cbn [Nat.eqb]. unfold bind.
  rewrite (update_servo_ok 2 5000 st) by lia.
  unfold set_position. cbn [current_position trace]. rewrite Hp. reflexivity.
Qed.

Lemma move_free_channel targets st i pos start end_ steps pos' :
  (i < 4)%nat -> i <> 2%nat ->
  current_position st = pos ->
  nth_error pos i = Some start -> nth_error targets i = Some end_ ->
  interpolation_frames start end_ = Ok steps ->
  list_set pos i end_ = Some pos' ->
  move_channel targets i st = (Ok tt, mkState pos' (trace st ++ frame_events i steps)).
Proof.
  intros Hi Hn Hp Hs He Hf Hset. unfold move_channel.
  replace (Nat.eqb i 2) with false by (symmetry; apply Nat.eqb_neq; exact Hn).
  unfold bind at 1. unfold get_position. rewrite Hp, Hs.
  unfold bind at 1. unfold lift, index. rewrite He.
  unfold bind at 1. rewrite Hf.
  unfold bind. rewrite run_frames_ok by exact Hi.
  unfold set_position. cbn [current_position trace]. rewrite Hp, Hset. reflexivity.
Qed.

Lemma move_to_position_ok st p0 p1 p2 p3 t0 t1 t2 t3 f0 f1 f3 :
  current_position st = [p0; p1; p2; p3] ->
  interpolation_frames p0 t0 = Ok f0 ->
  interpolation_frames p1 t1 = Ok f1 ->
  interpolation_frames p3 t3 = Ok f3 ->
  move_to_position [t0; t1; t2; t3] st =
  (Ok tt, mkState [t0; t1; 5000; t3]
            (trace st ++ frame_events 0 f0 ++ frame_events 1 f1 ++
             servo_events 2 5000 ++ frame_events 3 f3)).
Proof.
  intros Hp H0 H1 H3. unfold move_to_position.
  change (seq 0 (List.length servo_channels)) with [0; 1; 2; 3]%nat.
  cbn [for_each]. unfold bind at 1.
  rewrite (move_free_channel _ st 0 [p0; p1; p2; p3] p0 t0 f0 [t0; p1; p2; p3]);
    try reflexivity; try lia; try assumption.
  unfold bind at 1.
  rewrite (move_free_channel _ _ 1 [t0; p1; p2; p3] p1 t1 f1 [t0; t1; p2; p3]);
    try reflexivity; try lia; try assumption.
  unfold bind at 1.
  rewrite (move_locked_channel _ _ t0 t1 p2 p3) by reflexivity.
  unfold bind at 1.
  rewrite (move_free_channel _ _ 3 [t0; t1; 5000; p3] p3 t3 f3 [t0; t1; 5000; t3]);
    try reflexivity; try lia; try assumption.
  unfold ret. cbn [trace]. rewrite <- !app_assoc. reflexivity.
Qed.
(** * Frames between in-range positions are floors of the exact interpolant *)

Open Scope Q_scope.

Lemma Q2_le a b : (a <= b)%Z -> Q2 a <= Q2 b.
Proof.
  intros H.
  assert (E : Q2 b == inject_Z (2 ^ (b - a)) * Q2 a).
  { pose proof (Q2_shift a (b - a) 1 ltac:(lia)) as H1.
    replace (a + (b - a))%Z with b in H1 by lia. rewrite Z.mul_1_l in H1.
    rewrite <- H1. change (inject_Z 1) with 1. ring. }
  rewrite E. rewrite <- (Qmult_1_l (Q2 a)) at 1.
  apply (scale_le (Q2 a) 1 (2 ^ (b - a))); [apply Q2_pos|].
  assert (0 < 2 ^ (b - a))%Z by (apply Z.pow_pos_nonneg; lia). lia.
Qed.

Lemma rounds_to_dyadic M e : (Z.abs M < 2 ^ 53)%Z -> (-1022 <= e <= 900)%Z ->
  exists g, rounds_to (inject_Z M * Q2 e) g /\ SF2Q g == inject_Z M * Q2 e.
Proof.
  intros HM He. destruct (normalize_rounds M e 53 HM) as (R1 & _ & R3); try lia.
  exists (binary_normalize PyFloat.prec PyFloat.emax M e false).
  split; [exact R1|exact (R3 HM)].
Qed.

Lemma rounds_to_ge_dyadic x f M e : (Z.abs M < 2 ^ 53)%Z -> (-1022 <= e <= 900)%Z ->
  rounds_to x f -> inject_Z M * Q2 e <= x -> inject_Z M * Q2 e <= SF2Q f.
Proof.
  intros HM He R L. destruct (rounds_to_dyadic M e HM He) as (g & Rg & Eg).
  rewrite <- Eg. exact (rounds_to_mono _ _ _ _ L Rg R).
Qed.

Lemma rounds_to_le_dyadic x f M e : (Z.abs M < 2 ^ 53)%Z -> (-1022 <= e <= 900)%Z ->
  rounds_to x f -> x <= inject_Z M * Q2 e -> SF2Q f <= inject_Z M * Q2 e.
Proof.
  intros HM He R L. destruct (rounds_to_dyadic M e HM He) as (g & Rg & Eg).
  rewrite <- Eg. exact (rounds_to_mono _ _ _ _ L R Rg).
Qed.

Lemma scaled60_value f V : scaled60 f = Some V -> SF2Q f == inject_Z V * Q2 (-60).
Proof.
  destruct f as [s|s| |s m e]; cbn [scaled60]; try discriminate.
  - intros H. injection H as <-. cbn [SF2Q]. ring.
  - destruct (Z.leb_spec (-60) e) as [He|He]; [|discriminate].
    intros H. injection H as <-.
    rewrite <- (aligned_value s m e (-60)) by lia.
    replace (e - -60)%Z with (e + 60)%Z by lia. reflexivity.
Qed.

Lemma Qtrunc_dyadic5 N j : (0 <= N)%Z -> (0 <= j < 32)%Z ->
  Qtrunc (inject_Z (32 * N + j) * Q2 (-5)) = N.
Proof.
  intros HN Hj.
  assert (E : inject_Z (32 * N + j) * Q2 (-5) == inject_Z (32 * N + j) / inject_Z 32).
  { unfold Qdiv. apply Qmult_comp; [reflexivity|]. vm_compute. reflexivity. }
  rewrite (Qtrunc_comp _ _ E). unfold Qtrunc.
  assert (Hnn : 0 <= inject_Z (32 * N + j) / inject_Z 32).
  { apply Qle_shift_div_l; [reflexivity|]. rewrite Qmult_0_l.
    rewrite <- (Zle_Qle 0). lia. }
  apply Qle_bool_iff in Hnn. rewrite Hnn, <- Zdiv_Qdiv.
  symmetry. apply Z.div_unique_pos with (r := j); lia.
Qed.

(* a sum within 2^-42 of the integer N, between 2^11 and 2^52, rounds to N *)
Lemma rounds_to_absorb x f N :
  (2 ^ 11 < N < 2 ^ 52)%Z -> rounds_to x f ->
  inject_Z N - Q2 (-42) <= x -> x <= inject_Z N + Q2 (-42) ->
  SF2Q f == inject_Z N.
Proof.
  intros HN R Hlo Hhi.
  assert (Hb : Q2 (-42) <= 1) by (apply Qle_bool_iff; vm_compute; reflexivity).
  assert (HNq : inject_Z (2 ^ 11 + 1) <= inject_Z N) by (rewrite <- Zle_Qle; lia).
  assert (HNq' : inject_Z N <= inject_Z (2 ^ 52 - 1)) by (rewrite <- Zle_Qle; lia).
  change (inject_Z (2 ^ 11 + 1)) with (2049 # 1) in HNq.
  change (inject_Z (2 ^ 52 - 1)) with (4503599627370495 # 1) in HNq'.
  assert (Hxpos : 0 < x) by lra.
  destruct f as [s|s| |s m e]; cbn [rounds_to] in R; try tauto; [lra|].
  destruct s; [destruct R as [R _]; lra|]. destruct R as [_ R].
  cbn [SF2Q cond_Zopp].
  destruct R as (k & E & Hv & Hk & Hx1 & Hx2 & Hx3 & Hx4 & Hx5).
  rewrite Hv. pose proof (Q2_pos E) as Ha.
  (* the exponent of the result *)
  assert (HE1 : (-41 <= E)%Z).
  { destruct (Z.leb_spec (-41) E); [assumption|exfalso].
    assert (Q2 E <= Q2 (-42)) by (apply Q2_le; lia).
    assert (inject_Z (2 ^ 53) * Q2 (-42) == 2048 # 1) by (vm_compute; reflexivity).
    assert (inject_Z (2 ^ 53) * Q2 E <= inject_Z (2 ^ 53) * Q2 (-42)).
    { apply Qmult_le_l; [reflexivity|assumption]. }
    lra. }
  assert (HE2 : (E <= 0)%Z).
  { destruct (Z.leb_spec E 0); [assumption|exfalso].
    assert (Q2 1 <= Q2 E) by (apply Q2_le; lia).
    assert (inject_Z (2 ^ 52) * Q2 1 == 9007199254740992 # 1) by (vm_compute; reflexivity).
    assert (inject_Z (2 ^ 52) * Q2 1 <= inject_Z (2 ^ 52) * Q2 E).
    { apply Qmult_le_l; [reflexivity|assumption]. }
    lra. }
  assert (HNE : inject_Z N == inject_Z (N * 2 ^ (- E)) * Q2 E).
  { rewrite <- (Q2_shift E (- E) N) by lia. replace (E + - E)%Z with 0%Z by lia.
    unfold Q2. simpl. ring. }
  set (n := (N * 2 ^ (- E))%Z) in *.
  assert (H2x1 : inject_Z (2 * n) * Q2 E - 2 * Q2 (-42) <= 2 * x).
  { rewrite inject_Z_mult. change (inject_Z 2) with 2. lra. }
  assert (H2x2 : 2 * x <= inject_Z (2 * n) * Q2 E + 2 * Q2 (-42)).
  { rewrite inject_Z_mult. change (inject_Z 2) with 2. lra. }
  assert (Hba : 2 * Q2 (-42) <= Q2 E).
  { apply Qle_trans with (Q2 (-41)); [|apply Q2_le; lia].
    apply Qle_bool_iff. vm_compute. reflexivity. }
  assert (Hup : (k <= n + 1)%Z).
  { assert (inject_Z (2 * k - 1) * Q2 E <= inject_Z (2 * n + 1) * Q2 E).
    { rewrite (inject_Z_plus (2 * n) 1). change (inject_Z 1) with 1. lra. }
    apply scale_le_inv in H; [lia|exact Ha]. }
  assert (Hdn : (n <= k + 1)%Z).
  { assert (inject_Z (2 * n - 1) * Q2 E <= inject_Z (2 * k + 1) * Q2 E).
    { replace (2 * n - 1)%Z with (2 * n + -1)%Z by lia.
      rewrite (inject_Z_plus (2 * n) (-1)).
      change (inject_Z (-1)) with (-1 # 1). lra. }
    apply scale_le_inv in H; [lia|exact Ha]. }
  destruct (Z.eq_dec k n) as [->|Hne]; [symmetry; exact HNE|exfalso].
  destruct (Z.eq_dec E (-41)) as [EE|NE].
  - (* the grid step is 2^-41: N has an even mantissa, its neighbours are odd *)
    assert (Hev : Z.even n = true).
    { subst n. rewrite EE. change (- -41)%Z with 41%Z.
      rewrite Z.even_mul. change (Z.even (2 ^ 41)) with true. apply orb_true_r. }
    assert (Hodd : Z.even k = false).
    { assert (k = n + 1 \/ k = n - 1)%Z as [->| ->] by lia.
      - rewrite Z.even_add, Hev. reflexivity.
      - rewrite Z.even_sub, Hev. reflexivity. }
    assert (Htie : 2 * x == inject_Z (2 * k - 1) * Q2 E \/
                   2 * x == inject_Z (2 * k + 1) * Q2 E).
    { assert (k = n + 1 \/ k = n - 1)%Z as [Hk'|Hk'] by lia.
      - left. replace (2 * k - 1)%Z with (2 * n + 1)%Z in * by lia.
        rewrite (inject_Z_plus (2 * n) 1) in *. change (inject_Z 1) with 1 in *. lra.
      - right. replace (2 * k + 1)%Z with (2 * n + -1)%Z in * by lia.
        rewrite (inject_Z_plus (2 * n) (-1)) in *.
        change (inject_Z (-1)) with (-1 # 1) in *. lra. }
    rewrite (Hx5 Htie) in Hodd. discriminate.
  - assert (H4 : 4 * Q2 (-42) <= Q2 E).
    { apply Qle_trans with (Q2 (-40)); [|apply Q2_le; lia].
      apply Qle_bool_iff. vm_compute. reflexivity. }
    pose proof (Q2_pos (-42)) as Hbpos.
    assert (k = n + 1 \/ k = n - 1)%Z as [Hk'|Hk'] by lia.
    + replace (2 * k - 1)%Z with (2 * n + 1)%Z in * by lia.
      rewrite (inject_Z_plus (2 * n) 1) in *. change (inject_Z 1) with 1 in *. lra.
    + replace (2 * k + 1)%Z with (2 * n + -1)%Z in * by lia.
      rewrite (inject_Z_plus (2 * n) (-1)) in *.
      change (inject_Z (-1)) with (-1 # 1) in *. lra.
Qed.

Open Scope Z_scope.

Lemma products_checked : forallb (row_ok ratio_table) delta_range = true.
Proof. vm_cast_no_check (@eq_refl bool true). Qed.

Lemma in_delta_range d : -4000 <= d <= 4000 -> In d delta_range.
Proof.
  intros Hd. unfold delta_range. apply in_map_iff. exists (Z.to_nat (d + 4000)).
  split; [lia|]. apply in_seq. lia.
Qed.

Lemma in_ratio_table s : 1 <= s <= 20 ->
  In (s, PyFloat.int_truediv s INTERPOLATION_STEPS) ratio_table.
Proof.
  intros Hs. unfold ratio_table. apply in_map_iff. exists s. split; [reflexivity|].
  unfold step_range. apply in_map_iff. exists (Z.to_nat s). split; [lia|].
  apply in_seq. change (Z.to_nat INTERPOLATION_STEPS) with 20%nat. lia.
Qed.

Lemma row_checked d : -4000 <= d <= 4000 -> row_ok ratio_table d = true.
Proof.
  intros Hd.
  exact (proj1 (forallb_forall (row_ok ratio_table) delta_range)
           products_checked d (in_delta_range d Hd)).
Qed.

Lemma product_table d s : -4000 <= d <= 4000 -> 1 <= s <= 20 ->
  exists c fd, PyFloat.int_truediv s INTERPOLATION_STEPS = Ok c /\
               PyFloat.float_of_int d = Ok fd /\
               product_near d s (PyFloat.mul fd c) = true.
Proof.
  intros Hd Hs. pose proof (row_checked d Hd) as H. unfold row_ok in H.
  destruct (PyFloat.float_of_int d) as [fd|]; [|discriminate H].
  pose proof (proj1 (forallb_forall (entry_ok d fd) ratio_table) H _
                (in_ratio_table s Hs)) as H2.
  unfold entry_ok in H2. cbn [fst snd] in H2.
  destruct (PyFloat.int_truediv s INTERPOLATION_STEPS) as [c|]; [|discriminate H2].
  exists c, fd. split; [reflexivity|]. split; [reflexivity|]. exact H2.
Qed.

Lemma floor_div_between d s : 1 <= s <= 20 ->
  Z.min 0 d <= d * s / 20 <= Z.max 0 d.
Proof.
  intros Hs. pose proof (Z.div_mod (d * s) 20 ltac:(lia)) as E.
  pose proof (Z.mod_pos_bound (d * s) 20 ltac:(lia)) as B.
  destruct (Z.le_ge_cases 0 d); [rewrite Z.min_l, Z.max_r by lia|rewrite Z.min_r, Z.max_l by lia]; nia.
Qed.

Lemma frame_floor start end_ s :
  4000 <= start <= 8000 -> 4000 <= end_ <= 8000 -> 1 <= s <= 20 ->
  frame start end_ s = Ok (start + (end_ - start) * s / 20).
Proof.
  intros Hst Hen Hs.
  assert (Est : Z.abs start < 2 ^ 53) by (change (2 ^ 53) with 9007199254740992; lia).
  assert (Ed : Z.abs (end_ - start) < 2 ^ 53) by (change (2 ^ 53) with 9007199254740992; lia).
  destruct (frame_rounds start end_ s Est Ed Hs)
    as (c & p & x & Hc & _ & _ & Hp & _ & Rx & Hf).
  destruct (product_table (end_ - start) s ltac:(lia) Hs) as (c' & fd & Hc' & Hfd & Hnear).
  rewrite Hc in Hc'. injection Hc' as <-.
  unfold PyFloat.int_mul_float in Hp. rewrite Hfd in Hp. cbn [rbind] in Hp.
  injection Hp as <-.
  rewrite Hf. f_equal.
  set (d := end_ - start) in *. set (k := d * s / 20).
  pose proof (floor_div_between d s Hs) as Hk. fold k in Hk.
  assert (HN : 4000 <= start + k <= 8000) by (subst d; lia).
  unfold product_near in Hnear.
  destruct (scaled60 (PyFloat.mul fd c)) as [V|] eqn:HV; [|discriminate].
  apply scaled60_value in HV. fold k in Hnear.
  destruct (Z.eqb_spec (d * s mod 20) 0) as [Hint|Hfrac].
  - (* 20 divides (end - start) * s: the sum rounds to the integer *)
    apply andb_prop in Hnear. destruct Hnear as [L U].
    apply Z.leb_le in L. apply Z.leb_le in U.
    assert (Hx : (SF2Q (PyFloat.mul fd c) == inject_Z V * Q2 (-60))%Q) by exact HV.
    assert (Q18 : (Q2 (-42) == inject_Z (2 ^ 18) * Q2 (-60))%Q) by (vm_compute; reflexivity).
    assert (Qk : (inject_Z k == inject_Z (k * 2 ^ 60) * Q2 (-60))%Q).
    { pose proof (Q2_shift (-60) 60 k ltac:(lia)) as H1. rewrite <- H1.
      change (Q2 (-60 + 60)) with (Q2 0). unfold Q2. simpl. ring. }
    assert (L' : (inject_Z (k * 2 ^ 60 - 2 ^ 18) * Q2 (-60) <= inject_Z V * Q2 (-60))%Q)
      by (apply scale_le; [apply Q2_pos|exact L]).
    assert (U' : (inject_Z V * Q2 (-60) <= inject_Z (k * 2 ^ 60 + 2 ^ 18) * Q2 (-60))%Q)
      by (apply scale_le; [apply Q2_pos|exact U]).
    replace (k * 2 ^ 60 - 2 ^ 18) with (k * 2 ^ 60 + - 2 ^ 18) in L' by lia.
    rewrite inject_Z_plus, Qmult_plus_distr_l in L', U'.
    rewrite inject_Z_opp in L'.
    assert (Hval : (SF2Q x == inject_Z (start + k))%Q).
    { assert (HNr : 2 ^ 11 < start + k < 2 ^ 52)
        by (change (2 ^ 11) with 2048; change (2 ^ 52) with 4503599627370496; lia).
      apply (rounds_to_absorb _ _ (start + k) HNr Rx);
        rewrite inject_Z_plus, Hx; lra. }
    rewrite (Qtrunc_comp _ _ Hval). apply Qtrunc_Z.
  - (* otherwise the sum stays strictly between two integers *)
    apply andb_prop in Hnear. destruct Hnear as [L U].
    apply Z.leb_le in L. apply Z.leb_le in U.
    assert (Hx : (SF2Q (PyFloat.mul fd c) == inject_Z V * Q2 (-60))%Q) by exact HV.
    assert (L' : (inject_Z ((32 * k + 1) * 2 ^ 55) * Q2 (-60) <= inject_Z V * Q2 (-60))%Q)
      by (apply scale_le; [apply Q2_pos|exact L]).
    assert (U' : (inject_Z V * Q2 (-60) <= inject_Z ((32 * k + 31) * 2 ^ 55) * Q2 (-60))%Q)
      by (apply scale_le; [apply Q2_pos|exact U]).
    rewrite <- (Q2_shift (-60) 55) in L', U' by lia.
    change (-60 + 55) with (-5) in L', U'.
    assert (Qs : (inject_Z start == inject_Z (32 * start) * Q2 (-5))%Q).
    { rewrite inject_Z_mult. transitivity (inject_Z start * (inject_Z 32 * Q2 (-5)))%Q; [|ring].
      assert (inject_Z 32 * Q2 (-5) == 1)%Q by (vm_compute; reflexivity).
      rewrite H. ring. }
    assert (Lx : (inject_Z (32 * (start + k) + 1) * Q2 (-5) <= SF2Q x)%Q).
    { assert (HM : Z.abs (32 * (start + k) + 1) < 2 ^ 53)
        by (change (2 ^ 53) with 9007199254740992; lia).
      apply (rounds_to_ge_dyadic _ _ (32 * (start + k) + 1) (-5) HM ltac:(lia) Rx).
      replace (32 * (start + k) + 1) with (32 * start + (32 * k + 1)) by lia.
      rewrite inject_Z_plus, Qmult_plus_distr_l, <- Qs, Hx. lra. }
    assert (Ux : (SF2Q x <= inject_Z (32 * (start + k) + 31) * Q2 (-5))%Q).
    { assert (HM : Z.abs (32 * (start + k) + 31) < 2 ^ 53)
        by (change (2 ^ 53) with 9007199254740992; lia).
      apply (rounds_to_le_dyadic _ _ (32 * (start + k) + 31) (-5) HM ltac:(lia) Rx).
      replace (32 * (start + k) + 31) with (32 * start + (32 * k + 31)) by lia.
      rewrite inject_Z_plus, Qmult_plus_distr_l, <- Qs, Hx. lra. }
    apply Qtrunc_mono in Lx. apply Qtrunc_mono in Ux.
    rewrite Qtrunc_dyadic5 in Lx, Ux by lia. lia.
Qed.
(** * The claims *)

Lemma in_bounds_inv pos : in_bounds pos ->
  exists p0 p1 p2 p3, pos = [p0; p1; p2; p3] /\
    4000 <= p0 <= 8000 /\ 4000 <= p1 <= 8000 /\ 4000 <= p3 <= 6000.
Proof.
  intros [Hl Hb].
  destruct pos as [|p0 [|p1 [|p2 [|p3 [|? ?]]]]]; try discriminate.
  exists p0, p1, p2, p3. split; [reflexivity|].
  pose proof (Hb 0%nat ltac:(lia)) as B0. pose proof (Hb 1%nat ltac:(lia)) as B1.
  pose proof (Hb 3%nat ltac:(lia)) as B3. simpl in B0, B1, B3. lia.
Qed.

Lemma exact_int_small z : -9000000 <= z <= 9000000 -> exact_int z.
Proof. unfold exact_int. change (2 ^ 53) with 9007199254740992. lia. Qed.

Lemma clamp_range lo hi x : lo <= hi -> lo <= clamp lo hi x <= hi.
Proof. unfold clamp. lia. Qed.

Lemma in_bounds_clamp_values v0 v1 v2 v3 : in_bounds (clamp_values [v0; v1; v2; v3]).
Proof.
  split; [reflexivity|]. intros ch Hch.
  do 4 (destruct ch as [|ch];
        [cbn [nth clamp_values clamp_from clamp_channel Nat.eqb MIN_PULSE MAX_PULSE];
         unfold clamp; lia|]).
  lia.
Qed.

(** C1: after one validated step, every channel of the position store holds
    exactly its clamped target; the raw vector [9000, -100, 5000, 5000] is
    clamped to [8000, 4000, 5000, 5000] before move_to_position is called. *)
Theorem C1_position_after_step (st : state) (step : string) (values : list Z) :
  in_bounds (current_position st) -> List.length values = 4%nat ->
  exists st',
    execute_values step values st = (Ok tt, st') /\
    current_position st' = clamp_values values /\
    (forall c, (c < 4)%nat ->
       nth c (current_position st') 0 =
       clamp (nth c MIN_PULSE 0) (nth c MAX_PULSE 0) (nth c values 0)) /\
    clamp_values [9000; -100; 5000; 5000] = [8000; 4000; 5000; 5000].
Proof.
  intros Hb Hl.
  destruct (in_bounds_inv _ Hb) as (p0 & p1 & p2 & p3 & Hp & B0 & B1 & B3).
  destruct values as [|v0 [|v1 [|v2 [|v3 [|? ?]]]]]; try discriminate.
  unfold execute_values. cbn [List.length Nat.eqb negb servo_channels].
  change (clamp_values [v0; v1; v2; v3])
    with [clamp 4000 8000 v0; clamp 4000 8000 v1; 5000; clamp 4000 6000 v3].
  pose proof (clamp_range 4000 8000 v0 ltac:(lia)) as C0.
  pose proof (clamp_range 4000 8000 v1 ltac:(lia)) as C1.
  pose proof (clamp_range 4000 6000 v3 ltac:(lia)) as C3.
  eexists. split; [|split; [|split]].
  - eapply move_to_position_ok; [exact Hp| | |];
      apply interpolation_frames_ok; apply exact_int_small; lia.
  - reflexivity.
  - intros c Hc. cbn [current_position].
    do 4 (destruct c as [|c];
          [cbn [nth MIN_PULSE MAX_PULSE]; unfold clamp; lia|]).
    lia.
  - reflexivity.
Qed.

Lemma in_bounds_NEUTRAL : in_bounds NEUTRAL.
Proof.
  split; [reflexivity|]. intros ch Hch.
  do 4 (destruct ch as [|ch]; [cbn [nth NEUTRAL MIN_PULSE MAX_PULSE]; lia|]). lia.
Defined.

Lemma C1_witness :
  in_bounds (current_position initial_state) /\
  List.length [9000; -100; 5000; 5000] = 4%nat /\
  exists st',
    execute_values "9000,-100,5000,5000" [9000; -100; 5000; 5000] initial_state = (Ok tt, st') /\
    current_position st' = clamp_values [9000; -100; 5000; 5000] /\
    (forall c, (c < 4)%nat ->
       nth c (current_position st') 0 =
       clamp (nth c MIN_PULSE 0) (nth c MAX_PULSE 0) (nth c [9000; -100; 5000; 5000] 0)) /\
    clamp_values [9000; -100; 5000; 5000] = [8000; 4000; 5000; 5000].
Proof.
  split; [exact in_bounds_NEUTRAL|]. split; [reflexivity|].
  apply (C1_position_after_step initial_state "9000,-100,5000,5000" [9000; -100; 5000; 5000]);
    [exact in_bounds_NEUTRAL|reflexivity].
Defined.

(** C2 (as amended): between positions within the channel range 4000..8000
    the s-th frame is start + floor((end - start) * s / S), the exact
    interpolant rounded down, for every s from 1 to S = 20. *)
Theorem C2_frame_is_floor (start end_ s : Z) :
  4000 <= start <= 8000 -> 4000 <= end_ <= 8000 -> 1 <= s <= INTERPOLATION_STEPS ->
  frame start end_ s = Ok (start + (end_ - start) * s / INTERPOLATION_STEPS).
Proof. exact (frame_floor start end_ s). Qed.

Lemma C2_witness :
  4000 <= 6000 <= 8000 /\ 4000 <= 6003 <= 8000 /\ 1 <= 5 <= INTERPOLATION_STEPS /\
  frame 6000 6003 5 = Ok (6000 + (6003 - 6000) * 5 / INTERPOLATION_STEPS).
Proof.
  split; [lia|]. split; [lia|]. split; [unfold INTERPOLATION_STEPS; lia|].
  apply (C2_frame_is_floor 6000 6003 5); unfold INTERPOLATION_STEPS; lia.
Defined.

(** C2 (as stated) fails: from 6000 to 6003 the fifth frame is 6000, while
    (6003 - 6000) * 5 / 20 = 3/4 rounds to the nearest integer 1. *)
Lemma C2_counterexample :
  ~ (forall start end_ s, 1 <= s <= INTERPOLATION_STEPS ->
       exists v, frame start end_ s = Ok v /\ spec_frame start end_ s v).
Proof.
  intros H. destruct (H 6000 6003 5 ltac:(unfold INTERPOLATION_STEPS; lia)) as (v & Hv & r & Hr & Hn).
  assert (E : frame 6000 6003 5 = Ok 6000) by (vm_compute; reflexivity).
  rewrite E in Hv. injection Hv as <-.
  assert (r = 0) by lia. subst r.
  unfold nearest_int in Hn. apply Qle_bool_iff in Hn. vm_compute in Hn. discriminate.
Qed.

(** C3: on the plan "6000,6000,5000,x | 8000,6000,5000,5000" the first step
    has a token that is no integer; int() raises ValueError, the except
    branch of handle_prompt ends the plan, and the well-formed second step
    is never executed: no hardware write, the position stays neutral. *)
Theorem C3_unparseable_token_aborts_plan :
  handle_prompt (Ok "6000,6000,5000,x | 8000,6000,5000,5000"%string) initial_state =
  mkState NEUTRAL (trace initial_state ++ [PrintError ValueError]).
Proof. vm_compute. reflexivity. Qed.

(* a step with the wrong number of tokens is reported and skipped *)
Lemma wrong_arity_step_skipped (step : string) (values : list Z) (st : state) :
  parse_step step = Ok values -> List.length values <> 4%nat ->
  execute_step step st =
  (Ok tt, mkState (current_position st) (trace st ++ [PrintInvalidStep step])).
Proof.
  intros Hp Hl. unfold execute_step, bind, lift. rewrite Hp.
  unfold execute_values. cbn [servo_channels List.length].
  replace (Nat.eqb (List.length values) 4) with false
    by (symmetry; apply Nat.eqb_neq; exact Hl).
  reflexivity.
Qed.

(* and the rest of the plan is carried out *)
Lemma wrong_arity_plan_continues :
  current_position
    (handle_prompt (Ok "6000,5000,5000 | 8000,6000,5000,5000"%string) initial_state) =
  [8000; 6000; 5000; 5000].
Proof. vm_compute. reflexivity. Qed.

Lemma commands_to_app ch tr1 tr2 :
  commands_to ch (tr1 ++ tr2) = commands_to ch tr1 ++ commands_to ch tr2.
Proof. unfold commands_to. apply flat_map_app. Qed.

Lemma commands_to_frame_events ch i steps : ch <> Z.of_nat i ->
  commands_to ch (frame_events i steps) = [].
Proof.
  intros Hne. induction steps as [|v steps IH]; [reflexivity|].
  unfold frame_events in *. cbn [flat_map]. rewrite commands_to_app, IH, app_nil_r.
  unfold servo_events, commands_to, command. cbn [flat_map app nth].
  replace (Z.of_nat i =? ch) with false by (symmetry; apply Z.eqb_neq; lia).
  reflexivity.
Qed.

(** C4: whatever the targets, the locked channel 2 ends at 5000 through one
    direct write: the loop body for index 2 issues the single command
    (2, 5000) without frames or pauses, the clamper replaces the requested
    value by 5000, and a whole motion sends channel 2 exactly that one
    command. *)
Theorem C4_locked_channel (st : state) (targets : list Z) (p0 p1 p2 p3 : Z) :
  current_position st = [p0; p1; p2; p3] ->
  move_channel targets 2 st =
    (Ok tt, mkState [p0; p1; 5000; p3]
              (trace st ++ [SerialWrite (command 2 5000); SliderSet 2 5000])) /\
  (forall requested, clamp_channel 2 requested = 5000) /\
  (forall t0 t1 t3 requested f0 f1 f3,
     interpolation_frames p0 t0 = Ok f0 ->
     interpolation_frames p1 t1 = Ok f1 ->
     interpolation_frames p3 t3 = Ok f3 ->
     exists events,
       move_to_position [t0; t1; requested; t3] st =
         (Ok tt, mkState [t0; t1; 5000; t3] (trace st ++ events)) /\
       commands_to 2 events = [command 2 5000]).
Proof.
  intros Hp. split; [|split].
  - exact (move_locked_channel targets st p0 p1 p2 p3 Hp).
  - intros requested. reflexivity.
  - intros t0 t1 t3 requested f0 f1 f3 H0 H1 H3.
    eexists. split.
    + exact (move_to_position_ok st p0 p1 p2 p3 t0 t1 requested t3 f0 f1 f3 Hp H0 H1 H3).
    + rewrite !commands_to_app.
      rewrite (commands_to_frame_events 2 0), (commands_to_frame_events 2 1),
        (commands_to_frame_events 2 3) by lia.
      reflexivity.
Qed.

Lemma C4_witness :
  current_position initial_state = [6000; 6000; 5000; 5000] /\
  move_channel [8000; 6000; 4321; 5000] 2 initial_state =
    (Ok tt, mkState [6000; 6000; 5000; 5000]
              (trace initial_state ++ [SerialWrite (command 2 5000); SliderSet 2 5000])).
Proof.
  split; [reflexivity|].
  exact (proj1 (C4_locked_channel initial_state [8000; 6000; 4321; 5000]
                  6000 6000 5000 5000 eq_refl)).
Defined.

(** C5: clamping is idempotent, for any bounds and for every channel. *)
Theorem C5_clamp_idempotent :
  (forall lo hi x, clamp lo hi (clamp lo hi x) = clamp lo hi x) /\
  (forall ch x, clamp_channel ch (clamp_channel ch x) = clamp_channel ch x).
Proof.
  split.
  - intros lo hi x. unfold clamp. lia.
  - intros ch x. unfold clamp_channel. destruct (Nat.eqb ch 2); [reflexivity|].
    unfold clamp. lia.
Qed.

Lemma set_target_mod channel target :
  Maestro.set_target channel target = Maestro.set_target channel (target mod 16384).
Proof.
  unfold Maestro.set_target. f_equal. f_equal. f_equal.
  assert (E1 : Z.land (target mod 16384) 127 = Z.land target 127).
  { change 127 with (Z.ones 7). rewrite !Z.land_ones by lia.
    change (2 ^ 7) with 128. apply Z.mod_mod_divide.
    exists 128. reflexivity. }
  assert (E2 : Z.land (Z.shiftr (target mod 16384) 7) 127 = Z.land (Z.shiftr target 7) 127).
  { change 127 with (Z.ones 7). rewrite !Z.land_ones, !Z.shiftr_div_pow2 by lia.
    change (2 ^ 7) with 128.
    pose proof (Z.div_mod target 16384 ltac:(lia)) as E.
    set (q := target / 16384) in *. set (r := target mod 16384) in *.
    clearbody q r. subst target.
    replace (16384 * q + r) with (r + (q * 128) * 128) by lia.
    rewrite Z.div_add by lia. rewrite Z.mod_add by lia. reflexivity. }
  rewrite E1, E2. reflexivity.
Qed.

(** C7: set_target writes the four bytes 0x84, channel, target & 0x7F,
    (target >> 7) & 0x7F; they depend on target mod 16384 only, so a target
    above 16383 is sent as if reduced by a multiple of 16384, without error. *)
Theorem C7_set_target_bytes (channel target : Z) :
  0 <= channel < 256 -> 0 <= target ->
  Maestro.set_target channel target =
    Ok [0x84; channel; Z.land target 0x7F; Z.land (Z.shiftr target 7) 0x7F] /\
  Maestro.set_target channel target = Maestro.set_target channel (target mod 16384) /\
  Maestro.set_target channel (target + 16384) = Maestro.set_target channel target.
Proof.
  intros Hc Ht. split; [exact (set_target_ok channel target Hc)|].
  split; [apply set_target_mod|].
  rewrite (set_target_mod channel (target + 16384)), (set_target_mod channel target).
  f_equal. rewrite <- (Z.mul_1_l 16384) at 1. apply Z.mod_add. lia.
Qed.

Lemma C7_witness :
  0 <= 3 < 256 /\ 0 <= 20000 /\
  Maestro.set_target 3 20000 =
    Ok [0x84; 3; Z.land 20000 0x7F; Z.land (Z.shiftr 20000 7) 0x7F] /\
  Maestro.set_target 3 20000 = Maestro.set_target 3 (20000 mod 16384) /\
  Maestro.set_target 3 (20000 + 16384) = Maestro.set_target 3 20000.
Proof.
  split; [lia|]. split; [lia|]. apply (C7_set_target_bytes 3 20000); lia.
Defined.

Lemma step_range_list :
  step_range = [1; 2; 3; 4; 5; 6; 7; 8; 9; 10; 11; 12; 13; 14; 15; 16; 17; 18; 19; 20].
Proof. reflexivity. Qed.

Lemma frame_value_step start end_ s s' :
  exact_int start -> exact_int (end_ - start) -> 1 <= s <= 19 -> s' = s + 1 ->
  (start <= end_ -> frame_value start end_ s <= frame_value start end_ s') /\
  (end_ <= start -> frame_value start end_ s >= frame_value start end_ s').
Proof.
  intros Hst Hd Hs ->.
  destruct (frame_step_mono start end_ s Hst Hd Hs) as (v & w & Hv & Hw & Hup & Hdn).
  unfold frame_value. rewrite Hv, Hw. split; intros H; [apply Hup|apply Z.le_ge, Hdn]; exact H.
Qed.

Lemma rounds_to_nonneg x f : (0 <= x)%Q -> rounds_to x f -> (0 <= SF2Q f)%Q.
Proof.
  intros Hx R.
  assert (Z0 : rounds_to 0%Q (S754_zero false)) by (cbn [rounds_to]; reflexivity).
  exact (rounds_to_mono _ _ _ _ Hx Z0 R).
Qed.

Lemma rounds_to_nonpos x f : (x <= 0)%Q -> rounds_to x f -> (SF2Q f <= 0)%Q.
Proof.
  intros Hx R.
  assert (Z0 : rounds_to 0%Q (S754_zero false)) by (cbn [rounds_to]; reflexivity).
  exact (rounds_to_mono _ _ _ _ Hx R Z0).
Qed.

(* the frame of step s when start and end - start are below 2^1019: every
   conversion and operation stays finite *)
Lemma frame_rounds_wide start end_ s :
  Z.abs start < 2 ^ 1019 -> Z.abs (end_ - start) < 2 ^ 1019 -> 1 <= s <= 20 ->
  exists fd fs c p x,
    PyFloat.float_of_int (end_ - start) = Ok fd /\
    rounds_to (inject_Z (end_ - start)) fd /\
    PyFloat.float_of_int start = Ok fs /\
    PyFloat.int_truediv s INTERPOLATION_STEPS = Ok c /\
    rounds_to (SF2Q fd * SF2Q c) p /\
    rounds_to (SF2Q fs + SF2Q p) x /\
    frame start end_ s = Ok (Qtrunc (SF2Q x)).
Proof.
  intros Hst Hd Hs.
  destruct (step_ratio_facts s Hs) as (c & Hc & Fc & Pc & Lc).
  destruct (float_of_int_rounds (end_ - start) 1019 Hd ltac:(lia)) as (fd & Hfd & Rd & Fd & _).
  destruct (float_of_int_rounds start 1019 Hst ltac:(lia)) as (fs & Hfs & Rs & Fs & _).
  destruct (SFmul_rounds (-52) 967 (-57) (-52) fd c Fd Fc ltac:(lia) ltac:(lia)) as [Rp Fp].
  destruct (SFadd_rounds (-57) 969 fs (PyFloat.mul fd c)) as [Rx Fx]; try lia.
  { eapply fin_in_weaken; [| |exact Fs]; lia. }
  { eapply fin_in_weaken; [| |exact Fp]; lia. }
  exists fd, fs, c, (PyFloat.mul fd c), (PyFloat.add fs (PyFloat.mul fd c)).
  split; [exact Hfd|]. split; [exact Rd|]. split; [exact Hfs|]. split; [exact Hc|].
  split; [exact Rp|]. split; [exact Rx|].
  unfold frame. rewrite Hc. cbn [rbind].
  unfold PyFloat.int_mul_float. rewrite Hfd. cbn [rbind].
  unfold PyFloat.int_add_float. rewrite Hfs. cbn [rbind].
  apply (int_of_float_trunc _ _ _ Fx).
Qed.

Lemma frame_step_mono_wide start end_ s :
  Z.abs start < 2 ^ 1019 -> Z.abs (end_ - start) < 2 ^ 1019 -> 1 <= s <= 19 ->
  exists v w, frame start end_ s = Ok v /\ frame start end_ (s + 1) = Ok w /\
              (start <= end_ -> v <= w) /\ (end_ <= start -> w <= v).
Proof.
  intros Hst Hd Hs.
  destruct (frame_rounds_wide start end_ s Hst Hd ltac:(lia))
    as (fd & fs & c & p & x & Hfd & Rd & Hfs & Hc & Rp & Rx & Hf).
  destruct (frame_rounds_wide start end_ (s + 1) Hst Hd ltac:(lia))
    as (fd' & fs' & c' & p' & x' & Hfd' & _ & Hfs' & Hc' & Rp' & Rx' & Hf').
  rewrite Hfd in Hfd'. injection Hfd' as <-. rewrite Hfs in Hfs'. injection Hfs' as <-.
  destruct (step_ratio_mono s Hs) as (c0 & c0' & E0 & E0' & Hcc).
  rewrite Hc in E0. rewrite Hc' in E0'. injection E0 as <-. injection E0' as <-.
  exists (Qtrunc (SF2Q x)), (Qtrunc (SF2Q x')).
  split; [exact Hf|]. split; [exact Hf'|]. split; intros Hord.
  - assert (Hd0 : (0 <= SF2Q fd)%Q).
    { apply (rounds_to_nonneg (inject_Z (end_ - start))); [|exact Rd].
      rewrite <- (Zle_Qle 0). lia. }
    assert (Hp : (SF2Q p <= SF2Q p')%Q).
    { apply (rounds_to_mono (SF2Q fd * SF2Q c) (SF2Q fd * SF2Q c')); try assumption.
      revert Hd0 Hcc. generalize (SF2Q fd) (SF2Q c) (SF2Q c'). intros; nra. }
    apply Qtrunc_mono.
    apply (rounds_to_mono (SF2Q fs + SF2Q p) (SF2Q fs + SF2Q p')); try assumption.
    lra.
  - assert (Hd0 : (SF2Q fd <= 0)%Q).
    { apply (rounds_to_nonpos (inject_Z (end_ - start))); [|exact Rd].
      rewrite <- (Zle_Qle _ 0). lia. }
    assert (Hp : (SF2Q p' <= SF2Q p)%Q).
    { apply (rounds_to_mono (SF2Q fd * SF2Q c') (SF2Q fd * SF2Q c)); try assumption.
      revert Hd0 Hcc. generalize (SF2Q fd) (SF2Q c) (SF2Q c'). intros; nra. }
    apply Qtrunc_mono.
    apply (rounds_to_mono (SF2Q fs + SF2Q p') (SF2Q fs + SF2Q p)); try assumption.
    lra.
Qed.

Lemma frame_value_ok_wide start end_ s :
  Z.abs start < 2 ^ 1019 -> Z.abs (end_ - start) < 2 ^ 1019 -> 1 <= s <= 20 ->
  frame start end_ s = Ok (frame_value start end_ s).
Proof.
  intros Hst Hd Hs.
  destruct (frame_rounds_wide start end_ s Hst Hd Hs)
    as (fd & fs & c & p & x & _ & _ & _ & _ & _ & _ & Hf).
  unfold frame_value. rewrite Hf. reflexivity.
Qed.

Lemma interpolation_frames_wide start end_ :
  Z.abs start < 2 ^ 1019 -> Z.abs (end_ - start) < 2 ^ 1019 ->
  interpolation_frames start end_ = Ok (map (frame_value start end_) step_range).
Proof.
  intros Hst Hd. unfold interpolation_frames. apply rmap_ok.
  intros s Hin. apply frame_value_ok_wide; try assumption.
  apply in_step_range, Hin.
Qed.

Lemma frame_value_step_wide start end_ s s' :
  Z.abs start < 2 ^ 1019 -> Z.abs (end_ - start) < 2 ^ 1019 -> 1 <= s <= 19 -> s' = s + 1 ->
  (start <= end_ -> frame_value start end_ s <= frame_value start end_ s') /\
  (end_ <= start -> frame_value start end_ s >= frame_value start end_ s').
Proof.
  intros Hst Hd Hs ->.
  destruct (frame_step_mono_wide start end_ s Hst Hd Hs) as (v & w & Hv & Hw & Hup & Hdn).
  unfold frame_value. rewrite Hv, Hw. split; intros H; [apply Hup|apply Z.le_ge, Hdn]; exact H.
Qed.

Lemma interpolation_frames_length start end_ l :
  interpolation_frames start end_ = Ok l -> List.length l = Z.to_nat INTERPOLATION_STEPS.
Proof.
  unfold interpolation_frames.
  assert (G : forall (steps : list Z) l', rmap (frame start end_) steps = Ok l' ->
                List.length l' = List.length steps).
  { induction steps as [|s steps IH]; intros l' H; cbn [rmap] in H.
    - injection H as <-. reflexivity.
    - destruct (frame start end_ s); [|discriminate]. cbn [rbind] in H.
      destruct (rmap (frame start end_) steps) as [bs|]; [|discriminate].
      cbn [rbind] in H. injection H as <-. cbn [List.length]. rewrite (IH bs eq_refl).
      reflexivity. }
  intros H. rewrite (G _ _ H). reflexivity.
Qed.

(** C6: the frame list of a channel has exactly S = 20 entries whenever
    the comprehension yields one, whatever start and end are; and for
    every start and end with |start| and |end - start| below 2^1019 (no
    float conversion or operation overflows there; every pulse width is
    far inside) the list exists, is non-decreasing when start <= end and
    non-increasing when start >= end. *)
Theorem C6_frames_monotone (start end_ : Z) :
  (forall l, interpolation_frames start end_ = Ok l ->
             List.length l = Z.to_nat INTERPOLATION_STEPS) /\
  (Z.abs start < 2 ^ 1019 -> Z.abs (end_ - start) < 2 ^ 1019 ->
   exists l,
     interpolation_frames start end_ = Ok l /\
     List.length l = Z.to_nat INTERPOLATION_STEPS /\
     (start <= end_ -> Sorted Z.le l) /\
     (end_ <= start -> Sorted Z.ge l)).
Proof.
  split; [intros l; apply interpolation_frames_length|].
  intros Hst Hd.
  exists (map (frame_value start end_) step_range).
  split; [apply interpolation_frames_wide; assumption|].
  split; [reflexivity|].
  rewrite step_range_list. cbn [map].
  split; intros Hord;
    repeat (apply Sorted_cons || apply Sorted_nil || apply HdRel_cons || apply HdRel_nil);
    match goal with
    | |- frame_value _ _ ?a <= frame_value _ _ ?b =>
        apply (proj1 (frame_value_step_wide start end_ a b Hst Hd ltac:(lia) eq_refl) Hord)
    | |- frame_value _ _ ?a >= frame_value _ _ ?b =>
        apply (proj2 (frame_value_step_wide start end_ a b Hst Hd ltac:(lia) eq_refl) Hord)
    end.
Qed.

Lemma exact_int_6000 : exact_int 6000.
Proof. apply exact_int_small. lia. Defined.

Lemma exact_int_8000 : exact_int 8000.
Proof. apply exact_int_small. lia. Defined.

Lemma exact_int_2000 : exact_int (8000 - 6000).
Proof. apply exact_int_small. lia. Defined.

Lemma below_2_1019 z : (Z.abs z <? 2 ^ 1019) = true -> Z.abs z < 2 ^ 1019.
Proof. apply Z.ltb_lt. Defined.

Lemma C6_witness :
  Z.abs (2 ^ 70 + 3) < 2 ^ 1019 /\ Z.abs (2 ^ 900 + 1 - (2 ^ 70 + 3)) < 2 ^ 1019 /\
  exists l,
    interpolation_frames (2 ^ 70 + 3) (2 ^ 900 + 1) = Ok l /\
    List.length l = Z.to_nat INTERPOLATION_STEPS /\
    (2 ^ 70 + 3 <= 2 ^ 900 + 1 -> Sorted Z.le l) /\
    (2 ^ 900 + 1 <= 2 ^ 70 + 3 -> Sorted Z.ge l).
Proof.
  assert (H1 : Z.abs (2 ^ 70 + 3) < 2 ^ 1019) by (apply below_2_1019; vm_compute; reflexivity).
  assert (H2 : Z.abs (2 ^ 900 + 1 - (2 ^ 70 + 3)) < 2 ^ 1019)
    by (apply below_2_1019; vm_compute; reflexivity).
  split; [exact H1|]. split; [exact H2|].
  exact (proj2 (C6_frames_monotone (2 ^ 70 + 3) (2 ^ 900 + 1)) H1 H2).
Defined.

(** Beyond the float range there is no frame list at all: towards the
    target 2^1024 the conversion of end - start raises OverflowError. *)
Lemma frames_overflow :
  interpolation_frames 6000 (2 ^ 1024) = Raise OverflowError.
Proof. vm_compute. reflexivity. Qed.

Lemma list_set_ok pos i old v : nth_error pos i = Some old ->
  exists pos', list_set pos i v = Some pos' /\ nth_error pos' i = Some v /\
               (old = v -> pos' = pos).
Proof.
  revert i. induction pos as [|h t IH]; intros i Hn.
  - destruct i; discriminate.
  - destruct i as [|i].
    + injection Hn as ->. exists (v :: t). repeat split. intros ->. reflexivity.
    + cbn [nth_error] in Hn. destruct (IH i Hn) as (t' & E & N & S).
      exists (h :: t'). cbn [list_set]. rewrite E. repeat split; [exact N|].
      intros Hv. rewrite (S Hv). reflexivity.
Qed.

Lemma after_frames_state i steps k st : (i < 4)%nat ->
  after_frames i steps k st =
  mkState (current_position st) (trace st ++ frame_events i (firstn k steps)).
Proof. intros Hi. unfold after_frames. rewrite run_frames_ok by exact Hi. reflexivity. Qed.

(** C8 (as amended): during the frames of an unlocked channel every frame
    value goes to the hardware (and the slider) only; the position store
    keeps the starting value of the channel through all the frames and is
    set to the target once, after the last frame. *)
Theorem C8_store_updated_after_last_frame
    (st : state) (targets : list Z) (i : nat) (start end_ : Z) (steps : list Z) :
  (i < 4)%nat -> i <> 2%nat ->
  nth_error (current_position st) i = Some start ->
  nth_error targets i = Some end_ ->
  interpolation_frames start end_ = Ok steps ->
  (forall k,
     nth_error (current_position (after_frames i steps k st)) i = Some start /\
     trace (after_frames i steps k st) = trace st ++ frame_events i (firstn k steps)) /\
  exists pos',
    move_channel targets i st = (Ok tt, mkState pos' (trace st ++ frame_events i steps)) /\
    nth_error pos' i = Some end_.
Proof.
  intros Hi Hn Hs He Hf. split.
  - intros k. rewrite after_frames_state by exact Hi. cbn [current_position trace].
    split; [exact Hs|reflexivity].
  - destruct (list_set_ok _ i start end_ Hs) as (pos' & Hset & Hnth & _).
    exists pos'. split; [|exact Hnth].
    exact (move_free_channel targets st i _ start end_ steps pos' Hi Hn eq_refl Hs He Hf Hset).
Qed.

Lemma C8_witness :
  (0 < 4)%nat /\ 0%nat <> 2%nat /\
  nth_error (current_position initial_state) 0 = Some 6000 /\
  nth_error [8000; 6000; 5000; 5000] 0 = Some 8000 /\
  interpolation_frames 6000 8000 = Ok (map (frame_value 6000 8000) step_range) /\
  nth_error (current_position
               (after_frames 0 (map (frame_value 6000 8000) step_range) 1 initial_state)) 0
    = Some 6000.
Proof.
  split; [lia|]. split; [discriminate|]. split; [reflexivity|]. split; [reflexivity|].
  split; [exact (interpolation_frames_ok 6000 8000 exact_int_6000 exact_int_8000 exact_int_2000)|].
  exact (proj1 (proj1 (C8_store_updated_after_last_frame initial_state
                         [8000; 6000; 5000; 5000] 0 6000 8000
                         (map (frame_value 6000 8000) step_range)
                         ltac:(lia) ltac:(discriminate) eq_refl eq_refl
                         (interpolation_frames_ok 6000 8000
                            exact_int_6000 exact_int_8000 exact_int_2000)) 1%nat)).
Defined.

(** C8 (as stated) fails: moving channel 0 from 6000 to 8000, the first
    frame commands 6100 while the store still holds 6000. *)
Lemma C8_counterexample :
  ~ (forall st targets i start end_ steps k v,
       (i < 4)%nat -> i <> 2%nat ->
       nth_error (current_position st) i = Some start ->
       nth_error targets i = Some end_ ->
       interpolation_frames start end_ = Ok steps ->
       nth_error steps k = Some v ->
       nth_error (current_position (after_frames i steps (S k) st)) i = Some v).
Proof.
  intros H.
  assert (E : interpolation_frames 6000 8000 =
              Ok [6100; 6200; 6300; 6400; 6500; 6600; 6700; 6800; 6900; 7000;
                  7100; 7200; 7300; 7400; 7500; 7600; 7700; 7800; 7900; 8000])
    by (vm_compute; reflexivity).
  specialize (H initial_state [8000; 6000; 5000; 5000] 0%nat 6000 8000 _ 0%nat 6100
                ltac:(lia) ltac:(discriminate) eq_refl eq_refl E eq_refl).
  rewrite after_frames_state in H by lia.
  cbn [current_position] in H.
  change (current_position initial_state) with NEUTRAL in H.
  cbn [nth_error NEUTRAL] in H. injection H as H. lia.
Qed.

Lemma map_const {A B} (g : A -> B) (v : B) (l : list A) :
  (forall a, In a l -> g a = v) -> map g l = repeat v (List.length l).
Proof.
  induction l as [|a l IH]; intros H; [reflexivity|].
  cbn [map List.length repeat]. rewrite (H a (or_introl eq_refl)).
  rewrite IH by (intros b Hb; apply H; right; exact Hb). reflexivity.
Qed.

Lemma frames_same v : exact_int v ->
  interpolation_frames v v = Ok (repeat v (Z.to_nat INTERPOLATION_STEPS)).
Proof.
  intros Hv.
  assert (Hd : exact_int (v - v)) by (rewrite Z.sub_diag; apply exact_int_small; lia).
  rewrite (interpolation_frames_ok v v Hv Hv Hd). f_equal.
  rewrite (map_const (frame_value v v) v); [reflexivity|].
  intros s Hs. apply in_step_range in Hs.
  destruct (frame_between v v s Hv Hv Hd Hs) as (w & Hw & Hb).
  unfold frame_value. rewrite Hw. lia.
Qed.

Lemma commands_to_frame_events_self i steps :
  commands_to (Z.of_nat i) (frame_events i steps) = map (command (Z.of_nat i)) steps.
Proof.
  induction steps as [|v steps IH]; [reflexivity|].
  unfold frame_events in *. cbn [flat_map map]. rewrite commands_to_app, IH.
  unfold servo_events, commands_to, command. cbn [flat_map app nth].
  rewrite Z.eqb_refl. reflexivity.
Qed.

(** C9: when the target of an unlocked channel equals its stored position,
    the channel still receives exactly S = 20 commands, each carrying the
    current value, and the stored position is unchanged. *)
Theorem C9_zero_movement (st : state) (targets : list Z) (i : nat) (v : Z) :
  (i < 4)%nat -> i <> 2%nat -> exact_int v ->
  nth_error (current_position st) i = Some v ->
  nth_error targets i = Some v ->
  let writes := frame_events i (repeat v (Z.to_nat INTERPOLATION_STEPS)) in
  move_channel targets i st = (Ok tt, mkState (current_position st) (trace st ++ writes)) /\
  commands_to (Z.of_nat i) writes =
    repeat (command (Z.of_nat i) v) (Z.to_nat INTERPOLATION_STEPS).
Proof.
  intros Hi Hn Hv Hs Ht writes. split.
  - destruct (list_set_ok _ i v v Hs) as (pos' & Hset & _ & Hsame).
    rewrite (Hsame eq_refl) in Hset.
    exact (move_free_channel targets st i _ v v _ _ Hi Hn eq_refl Hs Ht (frames_same v Hv) Hset).
  - subst writes. rewrite commands_to_frame_events_self.
    generalize (Z.to_nat INTERPOLATION_STEPS). intros n.
    induction n as [|n IH]; [reflexivity|]. cbn [repeat map]. rewrite IH. reflexivity.
Qed.

Lemma C9_witness :
  (0 < 4)%nat /\ 0%nat <> 2%nat /\ exact_int 6000 /\
  nth_error (current_position initial_state) 0 = Some 6000 /\
  nth_error [6000; 6000; 5000; 5000] 0 = Some 6000 /\
  move_channel [6000; 6000; 5000; 5000] 0 initial_state =
    (Ok tt, mkState (current_position initial_state)
              (trace initial_state ++
               frame_events 0 (repeat 6000 (Z.to_nat INTERPOLATION_STEPS)))).
Proof.
  split; [lia|]. split; [discriminate|]. split; [exact exact_int_6000|].
  split; [reflexivity|]. split; [reflexivity|].
  exact (proj1 (C9_zero_movement initial_state [6000; 6000; 5000; 5000] 0 6000
                  ltac:(lia) ltac:(discriminate) exact_int_6000 eq_refl eq_refl)).
Defined.

Lemma serial_writes_frame_events i l :
  serial_writes (frame_events i l) = map (command (Z.of_nat i)) l.
Proof.
  induction l as [|v l IH]; [reflexivity|].
  unfold serial_writes, frame_events in *. cbn [flat_map]. rewrite flat_map_app.
  rewrite IH. reflexivity.
Qed.

Lemma pulses_sent_frame_events i l :
  pulses_sent (Z.of_nat i) (frame_events i l) = l.
Proof.
  induction l as [|v l IH]; [reflexivity|].
  unfold pulses_sent, frame_events in *. cbn [flat_map]. rewrite flat_map_app.
  rewrite IH. cbn [servo_events app flat_map]. rewrite Z.eqb_refl. reflexivity.
Qed.

(** C10: the motion of an unlocked channel i from the stored start to the
    target end (both converting to floats exactly, as every pulse width
    does) writes exactly the frames of the interpolation to the
    controller, each as a set-target command for channel i; every frame
    lies between min(start, end) and max(start, end), hence within the
    bounds of the channel when start and end are. *)
Theorem C10_frames_within (st : state) (targets : list Z) (i : nat) (start end_ : Z) :
  (i < 4)%nat -> i <> 2%nat ->
  exact_int start -> exact_int end_ -> exact_int (end_ - start) ->
  nth_error (current_position st) i = Some start ->
  nth_error targets i = Some end_ ->
  exists l events pos',
    interpolation_frames start end_ = Ok l /\
    move_channel targets i st = (Ok tt, mkState pos' (trace st ++ events)) /\
    serial_writes events = map (command (Z.of_nat i)) l /\
    pulses_sent (Z.of_nat i) events = l /\
    Forall (fun v => Z.min start end_ <= v <= Z.max start end_) l /\
    (pulse_ok i start -> pulse_ok i end_ -> Forall (pulse_ok i) l).
Proof.
  intros Hi Hn Hst Hen Hd Hs Ht.
  destruct (list_set_ok (current_position st) i start end_ Hs) as (pos' & Hset & _).
  pose proof (interpolation_frames_ok start end_ Hst Hen Hd) as Hl.
  exists (map (frame_value start end_) step_range),
         (frame_events i (map (frame_value start end_) step_range)), pos'.
  assert (HF : Forall (fun v => Z.min start end_ <= v <= Z.max start end_)
                 (map (frame_value start end_) step_range)).
  { rewrite Forall_forall. intros v Hin. apply in_map_iff in Hin.
    destruct Hin as (s & <- & Hin). apply in_step_range in Hin.
    destruct (frame_between start end_ s Hst Hen Hd Hin) as (w & Hw & Hb).
    unfold frame_value. rewrite Hw. exact Hb. }
  split; [exact Hl|].
  split; [exact (move_free_channel targets st i _ start end_ _ pos' Hi Hn eq_refl Hs Ht Hl Hset)|].
  split; [apply serial_writes_frame_events|].
  split; [apply pulses_sent_frame_events|].
  split; [exact HF|].
  unfold pulse_ok. intros Bs Be. eapply Forall_impl; [|exact HF].
  cbv beta. intros v Hv. lia.
Qed.

Lemma C10_witness :
  (0 < 4)%nat /\ 0%nat <> 2%nat /\
  exact_int 6000 /\ exact_int 8000 /\ exact_int (8000 - 6000) /\
  nth_error (current_position initial_state) 0 = Some 6000 /\
  nth_error [8000; 6000; 5000; 5000] 0 = Some 8000 /\
  exists l events pos',
    interpolation_frames 6000 8000 = Ok l /\
    move_channel [8000; 6000; 5000; 5000] 0 initial_state =
      (Ok tt, mkState pos' (trace initial_state ++ events)) /\
    serial_writes events = map (command (Z.of_nat 0)) l /\
    pulses_sent (Z.of_nat 0) events = l /\
    Forall (fun v => Z.min 6000 8000 <= v <= Z.max 6000 8000) l /\
    (pulse_ok 0 6000 -> pulse_ok 0 8000 -> Forall (pulse_ok 0) l).
Proof.
  split; [lia|]. split; [discriminate|]. split; [exact exact_int_6000|].
  split; [exact exact_int_8000|]. split; [exact exact_int_2000|].
  split; [reflexivity|]. split; [reflexivity|].
  exact (C10_frames_within initial_state [8000; 6000; 5000; 5000] 0 6000 8000
           ltac:(lia) ltac:(discriminate) exact_int_6000 exact_int_8000 exact_int_2000
           eq_refl eq_refl).
Defined.

(** Beyond 2^53 the conversion of end - start to a float rounds: from 6000
    towards 2^53 + 6003 the last frame is 2^53 + 6004. *)
Lemma frame_beyond_exact_range :
  frame 6000 (2 ^ 53 + 6003) 20 = Ok (2 ^ 53 + 6004).
Proof. vm_compute. reflexivity. Qed.

(** * Further properties of the servo commands *)

(** X1: set_target fails exactly when the channel is no byte: every target,
    negative ones included, is encoded without error, and a channel outside
    0..255 raises ValueError before anything is written. *)
Theorem set_target_raises_iff (channel target : Z) :
  Maestro.set_target channel target =
  if (0 <=? channel) && (channel <? 256) then Ok (command channel target)
  else Raise ValueError.
Proof.
  destruct ((0 <=? channel) && (channel <? 256)) eqn:E.
  - apply andb_prop in E. destruct E as [E1 E2].
    apply Z.leb_le in E1. apply Z.ltb_lt in E2. apply set_target_ok. lia.
  - unfold Maestro.set_target, Maestro.bytearray. cbn [forallb].
    rewrite E. reflexivity.
Qed.

Lemma command_value target :
  Z.land target 0x7F + 128 * Z.land (Z.shiftr target 7) 0x7F = target mod 16384.
Proof.
  change 0x7F with (Z.ones 7). rewrite !Z.land_ones, Z.shiftr_div_pow2 by lia.
  change (2 ^ 7) with 128.
  change 16384 with (128 * 128). rewrite Z.rem_mul_r by lia. reflexivity.
Qed.

(** X2: two set-target commands coincide exactly when they address the same
    channel with targets congruent modulo 16384; in particular targets
    in 0..16383 are transmitted without loss. *)
Theorem set_target_injective (ch ch' t t' : Z) :
  0 <= ch < 256 -> 0 <= ch' < 256 ->
  (Maestro.set_target ch t = Maestro.set_target ch' t' <->
   ch = ch' /\ t mod 16384 = t' mod 16384) /\
  (0 <= t < 16384 -> 0 <= t' < 16384 ->
   Maestro.set_target ch t = Maestro.set_target ch' t' -> t = t').
Proof.
  intros Hc Hc'.
  assert (Hiff : Maestro.set_target ch t = Maestro.set_target ch' t' <->
                 ch = ch' /\ t mod 16384 = t' mod 16384).
  { rewrite (set_target_ok ch t Hc), (set_target_ok ch' t' Hc'). split.
    - intros H. unfold command in H. injection H as E1 E2 E3.
      split; [exact E1|]. rewrite <- !command_value, E2, E3. reflexivity.
    - intros [-> Hm].
      rewrite <- (set_target_ok ch' t Hc'), <- (set_target_ok ch' t' Hc').
      rewrite (set_target_mod ch' t), (set_target_mod ch' t'), Hm. reflexivity. }
  split; [exact Hiff|].
  intros Ht Ht' H. apply Hiff in H. destruct H as [_ H].
  rewrite !Z.mod_small in H by lia. exact H.
Qed.

Lemma set_target_injective_witness :
  0 <= 1 < 256 /\ 0 <= 1 < 256 /\ 0 <= 6000 < 16384 /\ 0 <= 6000 < 16384 /\
  (Maestro.set_target 1 6000 = Maestro.set_target 1 6000 -> 6000 = 6000).
Proof.
  split; [lia|]. split; [lia|]. split; [lia|]. split; [lia|].
  apply (proj2 (set_target_injective 1 1 6000 6000 ltac:(lia) ltac:(lia))); lia.
Defined.

(** X3: update_servo writes to the controller before it looks up the
    slider: on a channel that is a byte but has no slider the command is
    sent and KeyError is raised afterwards; on a channel that is no byte
    ValueError is raised and nothing is sent. The stored position is
    untouched in both cases. *)
Theorem update_servo_unknown_channel (channel value : Z) (st : state) :
  (4 <= channel < 256 ->
   update_servo channel value st =
   (Raise KeyError,
    mkState (current_position st) (trace st ++ [SerialWrite (command channel value)]))) /\
  (channel < 0 \/ 256 <= channel -> update_servo channel value st = (Raise ValueError, st)).
Proof.
  split.
  - intros Hc. unfold update_servo, bind, lift.
    rewrite set_target_ok by lia. unfold emit at 1. cbn [current_position trace].
    assert (Hex : existsb (Z.eqb channel) servo_channels = false).
    { unfold servo_channels. cbn [existsb].
      repeat (rewrite (proj2 (Z.eqb_neq channel _)) by lia). reflexivity. }
    rewrite Hex. reflexivity.
  - intros Hc. unfold update_servo, bind, lift.
    rewrite set_target_raises_iff.
    replace ((0 <=? channel) && (channel <? 256)) with false; [reflexivity|].
    symmetry. apply andb_false_iff. destruct Hc as [Hc|Hc].
    + left. apply Z.leb_gt. exact Hc.
    + right. apply Z.ltb_ge. exact Hc.
Qed.

Lemma update_servo_unknown_channel_witness :
  4 <= 7 < 256 /\
  update_servo 7 6000 initial_state =
  (Raise KeyError,
   mkState (current_position initial_state)
     (trace initial_state ++ [SerialWrite (command 7 6000)])).
Proof.
  split; [lia|].
  apply (proj1 (update_servo_unknown_channel 7 6000 initial_state)). lia.
Defined.

Lemma update_servo_channel channel v st : 0 <= channel < 4 ->
  update_servo channel v st =
  (Ok tt, mkState (current_position st)
            (trace st ++ [SerialWrite (command channel v); SliderSet channel v])).
Proof.
  intros Hc. rewrite <- (Z2Nat.id channel) by lia.
  rewrite update_servo_ok by lia. reflexivity.
Qed.

(** X4: reset_all_servos jumps straight to neutral from any stored
    position: one command per channel, in channel order, without frames or
    pauses, and the store holds NEUTRAL afterwards. *)
Theorem reset_all_servos_direct (st : state) (p0 p1 p2 p3 : Z) :
  current_position st = [p0; p1; p2; p3] ->
  reset_all_servos st =
  (Ok tt, mkState NEUTRAL
            (trace st ++ servo_events 0 6000 ++ servo_events 1 6000 ++
             servo_events 2 5000 ++ servo_events 3 5000)).
Proof.
  intros Hp. unfold reset_all_servos, servo_channels. cbn [for_each].
  unfold bind, lift, ret, set_position.
  change (index NEUTRAL (Z.to_nat 0)) with (@Ok Z 6000).
  change (index NEUTRAL (Z.to_nat 1)) with (@Ok Z 6000).
  change (index NEUTRAL (Z.to_nat 2)) with (@Ok Z 5000).
  change (index NEUTRAL (Z.to_nat 3)) with (@Ok Z 5000).
  change (Z.to_nat 0) with 0%nat. change (Z.to_nat 1) with 1%nat.
  change (Z.to_nat 2) with 2%nat. change (Z.to_nat 3) with 3%nat.
  cbv beta iota.
  rewrite (update_servo_channel 0 6000 st) by lia.
  cbn [current_position trace]. rewrite Hp. cbn [list_set option_map].
  rewrite update_servo_channel by lia.
  cbn [current_position trace list_set option_map].
  rewrite update_servo_channel by lia.
  cbn [current_position trace list_set option_map].
  rewrite update_servo_channel by lia.
  cbn [current_position trace list_set option_map].
  unfold servo_events. rewrite <- !app_assoc. reflexivity.
Qed.

Lemma reset_all_servos_direct_witness :
  current_position initial_state = [6000; 6000; 5000; 5000] /\
  fst (reset_all_servos initial_state) = Ok tt.
Proof.
  split; [reflexivity|].
  rewrite (reset_all_servos_direct initial_state 6000 6000 5000 5000 eq_refl).
  reflexivity.
Defined.

(** X5: the clamper projects onto the bounds of the channel: its result
    always lies within them, a value already within them passes unchanged
    (channel 2 admits 5000 only), and the order of requests is kept. *)
Theorem clamp_channel_projection (ch : nat) :
  (ch < 4)%nat ->
  (forall pulse, pulse_ok ch (clamp_channel ch pulse)) /\
  (forall pulse, pulse_ok ch pulse -> clamp_channel ch pulse = pulse) /\
  (forall a b, a <= b -> clamp_channel ch a <= clamp_channel ch b).
Proof.
  intros Hch. unfold pulse_ok, clamp_channel, clamp.
  do 4 (destruct ch as [|ch];
        [cbn [nth MIN_PULSE MAX_PULSE Nat.eqb]; repeat split; intros; lia|]).
  lia.
Qed.

Lemma clamp_channel_projection_witness :
  (3 < 4)%nat /\ clamp_channel 3 4500 = 4500.
Proof.
  split; [lia|].
  apply (proj1 (proj2 (clamp_channel_projection 3 ltac:(lia)))).
  unfold pulse_ok. cbn [nth MIN_PULSE MAX_PULSE]. lia.
Defined.

(** * Safety of a whole prompt *)

Lemma frame_value_within lo hi start end_ s :
  -9000000 <= lo -> hi <= 9000000 ->
  lo <= start <= hi -> lo <= end_ <= hi -> In s step_range ->
  lo <= frame_value start end_ s <= hi.
Proof.
  intros Hlo Hhi Hs He Hin. apply in_step_range in Hin.
  assert (E1 : exact_int start) by (apply exact_int_small; lia).
  assert (E2 : exact_int end_) by (apply exact_int_small; lia).
  assert (E3 : exact_int (end_ - start))
    by (unfold exact_int; change (2 ^ 53) with 9007199254740992; lia).
  destruct (frame_between start end_ s E1 E2 E3 Hin) as (v & Hv & Hb).
  unfold frame_value. rewrite Hv. lia.
Qed.

Lemma frames_pulse_ok ch start end_ : (ch < 4)%nat ->
  pulse_ok ch start -> pulse_ok ch end_ ->
  Forall (pulse_ok ch) (map (frame_value start end_) step_range).
Proof.
  intros Hch Hs He. rewrite Forall_forall. intros v Hin.
  apply in_map_iff in Hin. destruct Hin as (s & <- & Hin).
  unfold pulse_ok in *.
  do 4 (destruct ch as [|ch];
        [cbn [nth MIN_PULSE MAX_PULSE] in *; apply frame_value_within; try assumption; lia|]).
  lia.
Qed.

Lemma safe_frame_events ch steps : (ch < 4)%nat ->
  Forall (pulse_ok ch) steps -> Forall safe_event (frame_events ch steps).
Proof.
  intros Hch H. induction H as [|v steps Hv _ IH]; [constructor|].
  unfold frame_events in *. cbn [flat_map servo_events app].
  constructor; [exists ch, v; split; [exact Hch|split; [exact Hv|reflexivity]]|].
  constructor; [exists ch; split; [exact Hch|split; [reflexivity|exact Hv]]|].
  constructor; [exact I|exact IH].
Qed.

Lemma safe_locked_events : Forall safe_event (servo_events 2 5000).
Proof.
  unfold servo_events. constructor; [|constructor; [|constructor]].
  - exists 2%nat, 5000. split; [lia|]. split; [|reflexivity].
    unfold pulse_ok. cbn [nth MIN_PULSE MAX_PULSE]. lia.
  - exists 2%nat. split; [lia|]. split; [reflexivity|].
    unfold pulse_ok. cbn [nth MIN_PULSE MAX_PULSE]. lia.
Qed.

Lemma in_bounds_pulse_ok pos ch : in_bounds pos -> (ch < 4)%nat -> pulse_ok ch (nth ch pos 0).
Proof. intros [_ H] Hch. exact (H ch Hch). Qed.

(* a step of four values, run from a position within bounds *)
Lemma execute_values_safe (st : state) (step : string) (values : list Z) :
  in_bounds (current_position st) -> List.length values = 4%nat ->
  exists events,
    execute_values step values st =
      (Ok tt, mkState (clamp_values values) (trace st ++ events)) /\
    Forall safe_event events /\
    List.length (serial_writes events) = 61%nat.
Proof.
  intros Hb Hl.
  destruct (in_bounds_inv _ Hb) as (p0 & p1 & p2 & p3 & Hp & B0 & B1 & B3).
  destruct values as [|v0 [|v1 [|v2 [|v3 [|? ?]]]]]; try discriminate.
  unfold execute_values. cbn [List.length Nat.eqb negb servo_channels].
  change (clamp_values [v0; v1; v2; v3])
    with [clamp 4000 8000 v0; clamp 4000 8000 v1; 5000; clamp 4000 6000 v3].
  pose proof (clamp_range 4000 8000 v0 ltac:(lia)) as C0.
  pose proof (clamp_range 4000 8000 v1 ltac:(lia)) as C1.
  pose proof (clamp_range 4000 6000 v3 ltac:(lia)) as C3.
  eexists. split; [|split].
  - eapply move_to_position_ok; [exact Hp| | |];
      apply interpolation_frames_ok; apply exact_int_small; lia.
  - apply Forall_app; split; [|apply Forall_app; split; [|apply Forall_app; split]];
      try exact safe_locked_events;
      apply safe_frame_events; try lia; apply frames_pulse_ok; try lia;
      unfold pulse_ok; cbn [nth MIN_PULSE MAX_PULSE]; lia.
  - reflexivity.
Qed.

Lemma state_eta (st : state) : st = mkState (current_position st) (trace st ++ []).
Proof. destruct st. cbn [current_position trace]. rewrite app_nil_r. reflexivity. Qed.

Lemma execute_step_safe (st : state) (step : string) :
  in_bounds (current_position st) ->
  exists r pos' events,
    execute_step step st = (r, mkState pos' (trace st ++ events)) /\
    in_bounds pos' /\ Forall safe_event events.
Proof.
  intros Hb. unfold execute_step, bind, lift.
  destruct (parse_step step) as [values|e].
  - destruct (Nat.eq_dec (List.length values) 4) as [Hl|Hl].
    + destruct (execute_values_safe st step values Hb Hl) as (events & He & Hs & _).
      exists (Ok tt), (clamp_values values), events.
      split; [exact He|]. split; [|exact Hs].
      destruct values as [|v0 [|v1 [|v2 [|v3 [|? ?]]]]]; try discriminate.
      apply in_bounds_clamp_values.
    + exists (Ok tt), (current_position st), [PrintInvalidStep step].
      split; [|split; [exact Hb|constructor; [exact I|constructor]]].
      unfold execute_values. cbn [servo_channels List.length].
      replace (Nat.eqb (List.length values) 4) with false
        by (symmetry; apply Nat.eqb_neq; exact Hl).
      reflexivity.
  - exists (Raise e), (current_position st), [].
    split; [|split; [exact Hb|constructor]].
    rewrite <- state_eta. reflexivity.
Qed.

Lemma plan_safe (steps : list string) (st : state) :
  in_bounds (current_position st) ->
  exists r pos' events,
    for_each steps execute_step st = (r, mkState pos' (trace st ++ events)) /\
    in_bounds pos' /\ Forall safe_event events.
Proof.
  revert st. induction steps as [|step steps IH]; intros st Hb.
  - exists (Ok tt), (current_position st), []. split; [|split; [exact Hb|constructor]].
    cbn [for_each]. unfold ret. rewrite <- state_eta. reflexivity.
  - destruct (execute_step_safe st step Hb) as (r & pos1 & ev1 & E1 & B1 & S1).
    cbn [for_each]. unfold bind. rewrite E1.
    destruct r as [[]|e].
    + destruct (IH (mkState pos1 (trace st ++ ev1)) B1) as (r2 & pos2 & ev2 & E2 & B2 & S2).
      cbn [current_position trace] in E2. rewrite E2.
      exists r2, pos2, (ev1 ++ ev2). rewrite app_assoc.
      split; [reflexivity|]. split; [exact B2|]. apply Forall_app. split; assumption.
    + exists (Raise e), pos1, ev1. split; [reflexivity|]. split; assumption.
Qed.

Lemma handle_prompt_effects (translation : result string) (st : state) :
  in_bounds (current_position st) ->
  exists pos' events,
    handle_prompt translation st = mkState pos' (trace st ++ events) /\
    in_bounds pos' /\ Forall safe_event events.
Proof.
  intros Hb. unfold handle_prompt, bind, lift.
  destruct translation as [response|e].
  - unfold run_plan.
    destruct (plan_safe (PyStr.split "|" (PyStr.strip response)) st Hb)
      as (r & pos' & events & E & B & S).
    rewrite E. destruct r as [[]|e].
    + exists pos', events. split; [reflexivity|]. split; assumption.
    + exists pos', (events ++ [PrintError e]). cbn [current_position trace].
      rewrite app_assoc. split; [reflexivity|]. split; [exact B|].
      apply Forall_app. split; [exact S|]. constructor; [exact I|constructor].
  - exists (current_position st), [PrintError e].
    split; [reflexivity|]. split; [exact Hb|]. constructor; [exact I|constructor].
Qed.

(** X6: the position store stays within the channel bounds across
    handle_prompt, whatever the translator answers (any text, or a
    failure). *)
Theorem handle_prompt_keeps_bounds (translation : result string) (st : state) :
  in_bounds (current_position st) ->
  in_bounds (current_position (handle_prompt translation st)).
Proof.
  intros Hb. destruct (handle_prompt_effects translation st Hb) as (pos' & events & E & B & _).
  rewrite E. exact B.
Qed.

Lemma handle_prompt_keeps_bounds_witness :
  in_bounds (current_position initial_state) /\
  in_bounds (current_position
               (handle_prompt (Ok "9000,-100,1,99999 | x"%string) initial_state)).
Proof.
  split; [exact in_bounds_NEUTRAL|].
  apply (handle_prompt_keeps_bounds (Ok "9000,-100,1,99999 | x"%string) initial_state).
  exact in_bounds_NEUTRAL.
Defined.

(** X7: whatever the translator answers, every command handle_prompt sends
    to the controller addresses one of the four channels with a pulse
    within the bounds of that channel. *)
Theorem handle_prompt_writes_within_bounds (translation : result string) (st : state) :
  in_bounds (current_position st) ->
  exists events,
    trace (handle_prompt translation st) = trace st ++ events /\
    Forall safe_event events.
Proof.
  intros Hb. destruct (handle_prompt_effects translation st Hb) as (pos' & events & E & _ & S).
  exists events. rewrite E. split; [reflexivity|exact S].
Qed.

Lemma handle_prompt_writes_within_bounds_witness :
  in_bounds (current_position initial_state) /\
  exists events,
    trace (handle_prompt (Ok "9000,-100,1,99999"%string) initial_state) =
      trace initial_state ++ events /\
    Forall safe_event events.
Proof.
  split; [exact in_bounds_NEUTRAL|].
  apply (handle_prompt_writes_within_bounds (Ok "9000,-100,1,99999"%string) initial_state).
  exact in_bounds_NEUTRAL.
Defined.

(** X8: an answer that is empty or consists of whitespace only moves
    nothing: the single empty step fails in int(), the error is reported,
    no command is sent and the position is unchanged. *)
Theorem blank_answer_moves_nothing (response : string) (st : state) :
  PyStr.strip response = EmptyString ->
  handle_prompt (Ok response) st =
  mkState (current_position st) (trace st ++ [PrintError ValueError]).
Proof.
  intros H. unfold handle_prompt, bind, lift, run_plan. rewrite H. reflexivity.
Qed.

Lemma blank_answer_moves_nothing_witness :
  PyStr.strip "   "%string = EmptyString /\
  handle_prompt (Ok "   "%string) initial_state =
  mkState (current_position initial_state) (trace initial_state ++ [PrintError ValueError]).
Proof.
  split; [reflexivity|].
  apply (blank_answer_moves_nothing "   "%string initial_state). reflexivity.
Defined.

(** * Execution of a plan *)

Lemma for_each_app {A} (l1 l2 : list A) (body : A -> M unit) (st : state) :
  for_each (l1 ++ l2) body st =
  match for_each l1 body st with
  | (Ok _, st') => for_each l2 body st'
  | (Raise e, st') => (Raise e, st')
  end.
Proof.
  revert st. induction l1 as [|a l1 IH]; intros st; [reflexivity|].
  cbn [app for_each]. unfold bind.
  destruct (body a st) as [[[]|e] st1]; [apply IH|reflexivity].
Qed.

Lemma serial_writes_app tr1 tr2 :
  serial_writes (tr1 ++ tr2) = serial_writes tr1 ++ serial_writes tr2.
Proof. unfold serial_writes. apply flat_map_app. Qed.

Lemma well_formed_steps_run (steps : list string) (st : state) :
  in_bounds (current_position st) -> Forall well_formed_step steps ->
  exists st',
    for_each steps execute_step st = (Ok tt, st') /\
    in_bounds (current_position st') /\
    List.length (serial_writes (trace st')) =
      (List.length (serial_writes (trace st)) + 61 * List.length steps)%nat /\
    (forall values, steps <> [] -> parse_step (last steps EmptyString) = Ok values ->
                    current_position st' = clamp_values values).
Proof.
  intros Hb Hw. revert st Hb. induction Hw as [|step steps Hs Hw IH]; intros st Hb.
  - exists st. split; [reflexivity|]. split; [exact Hb|]. split; [cbn [List.length]; lia|].
    intros values Hne. contradiction.
  - destruct Hs as (values & Hp & Hl).
    destruct (execute_values_safe st step values Hb Hl) as (events & He & _ & Hn).
    assert (Hb1 : in_bounds (clamp_values values)).
    { destruct values as [|v0 [|v1 [|v2 [|v3 [|? ?]]]]]; try discriminate.
      apply in_bounds_clamp_values. }
    destruct (IH (mkState (clamp_values values) (trace st ++ events)) Hb1)
      as (st' & E & B & N & L).
    exists st'. cbn [for_each]. unfold bind at 1. unfold execute_step at 1.
    unfold bind, lift. rewrite Hp, He.
    split; [exact E|]. split; [exact B|]. split.
    + rewrite N. cbn [trace List.length]. rewrite serial_writes_app, length_app, Hn. lia.
    + intros values' _ Hlast. destruct steps as [|step2 steps].
      * cbn [last] in Hlast. rewrite Hp in Hlast. injection Hlast as <-.
        cbn [for_each] in E. unfold ret in E. injection E as <-. reflexivity.
      * apply L; [discriminate|exact Hlast].
Qed.

(** X9: a plan whose steps all parse to four values is carried out
    completely: it ends with the position store at the clamped values of
    its last step, within bounds, after exactly 61 controller commands per
    step (20 for each of the three free channels, one for the locked one). *)
Theorem run_plan_well_formed (response : string) (st : state) :
  in_bounds (current_position st) ->
  Forall well_formed_step (PyStr.split "|" (PyStr.strip response)) ->
  exists st' values,
    run_plan response st = (Ok tt, st') /\
    parse_step (last (PyStr.split "|" (PyStr.strip response)) EmptyString) = Ok values /\
    current_position st' = clamp_values values /\
    List.length (serial_writes (trace st')) =
      (List.length (serial_writes (trace st)) +
       61 * List.length (PyStr.split "|" (PyStr.strip response)))%nat.
Proof.
  intros Hb Hw. unfold run_plan.
  set (steps := PyStr.split "|" (PyStr.strip response)) in *.
  destruct (well_formed_steps_run steps st Hb Hw) as (st' & E & _ & N & L).
  assert (Hne : steps <> []).
  { subst steps. destruct (PyStr.strip response) as [|c r]; cbn [PyStr.split]; [discriminate|].
    destruct (Ascii.eqb c "|"); [discriminate|].
    destruct (PyStr.split "|" r); discriminate. }
  assert (Hlast : well_formed_step (last steps EmptyString)).
  { rewrite Forall_forall in Hw. apply Hw.
    destruct steps as [|s0 steps']; [contradiction|].
    clear. revert s0. induction steps' as [|s1 t IH]; intros s0; [left; reflexivity|].
    right. apply IH. }
  destruct Hlast as (values & Hp & _).
  exists st', values. split; [exact E|]. split; [exact Hp|].
  split; [exact (L values Hne Hp)|exact N].
Qed.

Lemma example_plan_well_formed :
  Forall well_formed_step
    (PyStr.split "|" (PyStr.strip "6000,6000,5000,6000 | 6000,6000,5000,4000")).
Proof.
  assert (E : PyStr.split "|" (PyStr.strip "6000,6000,5000,6000 | 6000,6000,5000,4000") =
              ["6000,6000,5000,6000 "%string; " 6000,6000,5000,4000"%string])
    by (vm_compute; reflexivity).
  rewrite E.
  constructor; [exists [6000; 6000; 5000; 6000]; split; vm_compute; reflexivity|].
  constructor; [exists [6000; 6000; 5000; 4000]; split; vm_compute; reflexivity|].
  constructor.
Defined.

Lemma run_plan_well_formed_witness :
  in_bounds (current_position initial_state) /\
  Forall well_formed_step
    (PyStr.split "|" (PyStr.strip "6000,6000,5000,6000 | 6000,6000,5000,4000")) /\
  exists st' values,
    run_plan "6000,6000,5000,6000 | 6000,6000,5000,4000" initial_state = (Ok tt, st') /\
    parse_step (last (PyStr.split "|"
                        (PyStr.strip "6000,6000,5000,6000 | 6000,6000,5000,4000"))
                  EmptyString) = Ok values /\
    current_position st' = clamp_values values /\
    List.length (serial_writes (trace st')) =
      (List.length (serial_writes (trace initial_state)) +
       61 * List.length (PyStr.split "|"
                           (PyStr.strip "6000,6000,5000,6000 | 6000,6000,5000,4000")))%nat.
Proof.
  split; [exact in_bounds_NEUTRAL|]. split; [exact example_plan_well_formed|].
  exact (run_plan_well_formed "6000,6000,5000,6000 | 6000,6000,5000,4000" initial_state
           in_bounds_NEUTRAL example_plan_well_formed).
Defined.

(** X10: the plan stops at the first step with a token that int() rejects:
    the well-formed steps before it have been carried out and stay in
    effect, the steps after it are never run, and the exception reaches the
    except branch of handle_prompt. *)
Theorem plan_stops_at_unparseable_step
    (good : list string) (bad : string) (rest : list string) (e : exn) (st : state) :
  in_bounds (current_position st) -> Forall well_formed_step good ->
  parse_step bad = Raise e ->
  exists st',
    for_each good execute_step st = (Ok tt, st') /\
    for_each (good ++ bad :: rest) execute_step st = (Raise e, st').
Proof.
  intros Hb Hw Hbad.
  destruct (well_formed_steps_run good st Hb Hw) as (st' & E & _).
  exists st'. split; [exact E|].
  rewrite for_each_app, E. cbn [for_each]. unfold bind at 1.
  unfold execute_step, bind, lift. rewrite Hbad. reflexivity.
Qed.

Lemma plan_stops_at_unparseable_step_witness :
  in_bounds (current_position initial_state) /\
  Forall well_formed_step ["8000,6000,5000,5000"%string] /\
  parse_step "6000,x,5000,5000" = Raise ValueError /\
  exists st',
    for_each ["8000,6000,5000,5000"%string] execute_step initial_state = (Ok tt, st') /\
    for_each (["8000,6000,5000,5000"%string] ++
              "6000,x,5000,5000"%string :: ["4000,4000,5000,4000"%string])
      execute_step initial_state = (Raise ValueError, st').
Proof.
  assert (W : Forall well_formed_step ["8000,6000,5000,5000"%string]).
  { constructor; [exists [8000; 6000; 5000; 5000]; split; vm_compute; reflexivity|constructor]. }
  assert (P : parse_step "6000,x,5000,5000" = Raise ValueError) by (vm_compute; reflexivity).
  split; [exact in_bounds_NEUTRAL|]. split; [exact W|]. split; [exact P|].
  exact (plan_stops_at_unparseable_step ["8000,6000,5000,5000"%string]
           "6000,x,5000,5000" ["4000,4000,5000,4000"%string] ValueError initial_state
           in_bounds_NEUTRAL W P).
Defined.

(** X11: a step whose tokens all parse but whose count is not four is
    reported and skipped: no command is sent for it, the position is
    unchanged, and the plan goes on with the next step. *)
Theorem plan_skips_wrong_arity_step
    (step : string) (values : list Z) (rest : list string) (st : state) :
  parse_step step = Ok values -> List.length values <> 4%nat ->
  for_each (step :: rest) execute_step st =
  for_each rest execute_step
    (mkState (current_position st) (trace st ++ [PrintInvalidStep step])).
Proof.
  intros Hp Hl. cbn [for_each]. unfold bind at 1.
  rewrite (wrong_arity_step_skipped step values st Hp Hl). reflexivity.
Qed.

Lemma plan_skips_wrong_arity_step_witness :
  parse_step "6000,5000,5000" = Ok [6000; 5000; 5000] /\
  List.length [6000; 5000; 5000] <> 4%nat /\
  for_each ["6000,5000,5000"%string; "8000,6000,5000,5000"%string] execute_step initial_state =
  for_each ["8000,6000,5000,5000"%string] execute_step
    (mkState (current_position initial_state)
       (trace initial_state ++ [PrintInvalidStep "6000,5000,5000"])).
Proof.
  assert (P : parse_step "6000,5000,5000" = Ok [6000; 5000; 5000]) by (vm_compute; reflexivity).
  split; [exact P|]. split; [discriminate|].
  apply (plan_skips_wrong_arity_step "6000,5000,5000" [6000; 5000; 5000]
           ["8000,6000,5000,5000"%string] initial_state); [exact P|discriminate].
Defined.

(** * The last command and the size of a frame step *)

Lemma frame_value_last start end_ :
  exact_int start -> exact_int end_ -> exact_int (end_ - start) ->
  frame_value start end_ 20 = end_.
Proof.
  intros H1 H2 H3. unfold frame_value. rewrite (frame_last start end_ H1 H2 H3). reflexivity.
Qed.

Lemma last_frame_command ch start end_ :
  exact_int start -> exact_int end_ -> exact_int (end_ - start) ->
  last (map (command ch) (map (frame_value start end_) step_range)) [] = command ch end_.
Proof.
  intros H1 H2 H3. rewrite step_range_list. cbn [map last].
  rewrite (frame_value_last start end_ H1 H2 H3). reflexivity.
Qed.

Lemma last_app_cons {A} (l1 : list A) (a : A) (l2 : list A) (d : A) :
  last (l1 ++ a :: l2) d = last (a :: l2) d.
Proof.
  induction l1 as [|b l1 IH]; [reflexivity|].
  cbn [app]. destruct (l1 ++ a :: l2) eqn:E.
  - destruct l1; discriminate.
  - rewrite <- E in *. cbn [last]. rewrite E. rewrite <- E. exact IH.
Qed.

Lemma last_app_nonempty {A} (l1 l2 : list A) (d : A) :
  l2 <> [] -> last (l1 ++ l2) d = last l2 d.
Proof. destruct l2 as [|a l2]; [contradiction|]. intros _. apply last_app_cons. Qed.

(** X12: after a step of four values the controller and the store agree:
    for every channel the last command sent to it carries exactly the
    position stored for it. *)
Theorem last_command_matches_store (st : state) (step : string) (values : list Z) :
  in_bounds (current_position st) -> List.length values = 4%nat ->
  exists st',
    execute_values step values st = (Ok tt, st') /\
    forall ch, (ch < 4)%nat ->
      last (commands_to (Z.of_nat ch) (trace st')) [] =
      command (Z.of_nat ch) (nth ch (current_position st') 0).
Proof.
  intros Hb Hl.
  destruct (in_bounds_inv _ Hb) as (p0 & p1 & p2 & p3 & Hp & B0 & B1 & B3).
  destruct values as [|v0 [|v1 [|v2 [|v3 [|? ?]]]]]; try discriminate.
  unfold execute_values. cbn [List.length Nat.eqb negb servo_channels].
  change (clamp_values [v0; v1; v2; v3])
    with [clamp 4000 8000 v0; clamp 4000 8000 v1; 5000; clamp 4000 6000 v3].
  pose proof (clamp_range 4000 8000 v0 ltac:(lia)) as C0.
  pose proof (clamp_range 4000 8000 v1 ltac:(lia)) as C1.
  pose proof (clamp_range 4000 6000 v3 ltac:(lia)) as C3.
  set (c0 := clamp 4000 8000 v0) in *. set (c1 := clamp 4000 8000 v1) in *.
  set (c3 := clamp 4000 6000 v3) in *.
  assert (X0 : exact_int p0 /\ exact_int c0 /\ exact_int (c0 - p0))
    by (repeat split; apply exact_int_small; lia).
  assert (X1 : exact_int p1 /\ exact_int c1 /\ exact_int (c1 - p1))
    by (repeat split; apply exact_int_small; lia).
  assert (X3 : exact_int p3 /\ exact_int c3 /\ exact_int (c3 - p3))
    by (repeat split; apply exact_int_small; lia).
  destruct X0 as (X0a & X0b & X0c). destruct X1 as (X1a & X1b & X1c).
  destruct X3 as (X3a & X3b & X3c).
  eexists. split.
  - apply (move_to_position_ok st p0 p1 p2 p3 c0 c1 5000 c3 _ _ _ Hp
             (interpolation_frames_ok p0 c0 X0a X0b X0c)
             (interpolation_frames_ok p1 c1 X1a X1b X1c)
             (interpolation_frames_ok p3 c3 X3a X3b X3c)).
  - intros ch Hch. cbn [trace current_position].
    rewrite !commands_to_app.
    destruct ch as [|[|[|[|ch]]]]; [| | | |lia].
    + rewrite (commands_to_frame_events_self 0), (commands_to_frame_events 0 1),
        (commands_to_frame_events 0 3) by lia.
      change (commands_to (Z.of_nat 0) (servo_events 2 5000)) with (@nil (list Z)).
      rewrite !app_nil_r. rewrite last_app_nonempty.
      * cbn [nth]. apply last_frame_command; assumption.
      * rewrite step_range_list. discriminate.
    + rewrite (commands_to_frame_events_self 1), (commands_to_frame_events 1 0),
        (commands_to_frame_events 1 3) by lia.
      change (commands_to (Z.of_nat 1) (servo_events 2 5000)) with (@nil (list Z)).
      rewrite !app_nil_r, app_nil_l. rewrite last_app_nonempty.
      * cbn [nth]. apply last_frame_command; assumption.
      * rewrite step_range_list. discriminate.
    + rewrite (commands_to_frame_events 2 0), (commands_to_frame_events 2 1),
        (commands_to_frame_events 2 3) by lia.
      change (commands_to (Z.of_nat 2) (servo_events 2 5000)) with [command 2 5000].
      rewrite !app_nil_r, app_nil_l. rewrite last_app_nonempty by discriminate.
      reflexivity.
    + rewrite (commands_to_frame_events_self 3), (commands_to_frame_events 3 0),
        (commands_to_frame_events 3 1) by lia.
      change (commands_to (Z.of_nat 3) (servo_events 2 5000)) with (@nil (list Z)).
      rewrite !app_nil_l. rewrite last_app_nonempty.
      * cbn [nth]. apply last_frame_command; assumption.
      * rewrite step_range_list. discriminate.
Qed.

Lemma last_command_matches_store_witness :
  in_bounds (current_position initial_state) /\
  List.length [8000; 4000; 5000; 6000] = 4%nat /\
  exists st',
    execute_values "8000,4000,5000,6000" [8000; 4000; 5000; 6000] initial_state = (Ok tt, st') /\
    forall ch, (ch < 4)%nat ->
      last (commands_to (Z.of_nat ch) (trace st')) [] =
      command (Z.of_nat ch) (nth ch (current_position st') 0).
Proof.
  split; [exact in_bounds_NEUTRAL|]. split; [reflexivity|].
  apply (last_command_matches_store initial_state "8000,4000,5000,6000" [8000; 4000; 5000; 6000]);
    [exact in_bounds_NEUTRAL|reflexivity].
Defined.

Lemma floor_step_bound d s :
  Z.abs (d * (s + 1) / 20 - d * s / 20) <= (Z.abs d + 19) / 20.
Proof.
  pose proof (Z.div_mod (d * s) 20 ltac:(lia)) as E1.
  pose proof (Z.mod_pos_bound (d * s) 20 ltac:(lia)) as B1.
  pose proof (Z.div_mod (d * (s + 1)) 20 ltac:(lia)) as E2.
  pose proof (Z.mod_pos_bound (d * (s + 1)) 20 ltac:(lia)) as B2.
  apply Z.div_le_lower_bound; [lia|].
  set (q1 := d * s / 20) in *. set (q2 := d * (s + 1) / 20) in *.
  set (r1 := (d * s) mod 20) in *. set (r2 := (d * (s + 1)) mod 20) in *.
  assert (E : 20 * (q2 - q1) = d + r1 - r2) by lia.
  clearbody q1 q2 r1 r2. lia.
Qed.

(** X13: between positions within the channel range 4000..8000 no frame is
    further than ceil(|end - start| / 20), at most 200 units, from the value
    commanded before it (the start position for the first frame). *)
Theorem frame_step_bounded (start end_ s : Z) :
  4000 <= start <= 8000 -> 4000 <= end_ <= 8000 -> 0 <= s <= 19 ->
  exists before after,
    (if s =? 0 then before = start else frame start end_ s = Ok before) /\
    frame start end_ (s + 1) = Ok after /\
    Z.abs (after - before) <= (Z.abs (end_ - start) + 19) / 20 /\
    (Z.abs (end_ - start) + 19) / 20 <= 200.
Proof.
  intros Hs He Hr.
  exists (start + (end_ - start) * s / 20), (start + (end_ - start) * (s + 1) / 20).
  split; [|split; [|split]].
  - destruct (Z.eqb_spec s 0) as [->|Hne].
    + rewrite Z.mul_0_r. cbn [Z.div Z.div_eucl fst]. lia.
    + apply frame_floor; lia.
  - apply frame_floor; lia.
  - replace (start + (end_ - start) * (s + 1) / 20 - (start + (end_ - start) * s / 20))
      with ((end_ - start) * (s + 1) / 20 - (end_ - start) * s / 20) by lia.
    apply floor_step_bound.
  - assert (H : (Z.abs (end_ - start) + 19) / 20 < 201)
      by (apply Z.div_lt_upper_bound; lia).
    lia.
Qed.

Lemma frame_step_bounded_witness :
  4000 <= 6000 <= 8000 /\ 4000 <= 8000 <= 8000 /\ 0 <= 0 <= 19 /\
  exists before after,
    (if 0 =? 0 then before = 6000 else frame 6000 8000 0 = Ok before) /\
    frame 6000 8000 (0 + 1) = Ok after /\
    Z.abs (after - before) <= (Z.abs (8000 - 6000) + 19) / 20 /\
    (Z.abs (8000 - 6000) + 19) / 20 <= 200.
Proof.
  split; [lia|]. split; [lia|]. split; [lia|].
  apply (frame_step_bounded 6000 8000 0); lia.
Defined.

(** * Rendering and reading back a position *)

Lemma all_chars_app P a b :
  all_chars P (a ++ b) = all_chars P a && all_chars P b.
Proof.
  induction a as [|c a IH]; [reflexivity|].
  cbn [String.append all_chars]. rewrite IH. apply andb_assoc.
Qed.

Lemma all_chars_impl (P Q : ascii -> bool) s :
  (forall c, P c = true -> Q c = true) ->
  all_chars P s = true -> all_chars Q s = true.
Proof.
  intros HPQ. induction s as [|c s IH]; [reflexivity|].
  cbn [all_chars]. intros H. apply andb_true_iff in H. destruct H as [H1 H2].
  rewrite (HPQ c H1), (IH H2). reflexivity.
Qed.

Lemma lstrip_id s :
  all_chars (fun c => negb (PyStr.is_space c)) s = true -> PyStr.lstrip s = s.
Proof.
  destruct s as [|c r]; [reflexivity|].
  cbn [all_chars PyStr.lstrip]. intros H. apply andb_true_iff in H.
  destruct H as [H _]. apply negb_true_iff in H. rewrite H. reflexivity.
Qed.

Lemma rstrip_id s :
  all_chars (fun c => negb (PyStr.is_space c)) s = true -> PyStr.rstrip s = s.
Proof.
  induction s as [|c r IH]; [reflexivity|].
  cbn [all_chars PyStr.rstrip]. intros H. apply andb_true_iff in H.
  destruct H as [H1 H2]. rewrite (IH H2). apply negb_true_iff in H1.
  destruct r; [rewrite H1|]; reflexivity.
Qed.

Lemma strip_id s :
  all_chars (fun c => negb (PyStr.is_space c)) s = true -> PyStr.strip s = s.
Proof.
  intros H. unfold PyStr.strip. rewrite (lstrip_id s H). apply rstrip_id, H.
Qed.

Lemma split_no_sep sep s :
  all_chars (fun c => negb (Ascii.eqb c sep)) s = true -> PyStr.split sep s = [s].
Proof.
  induction s as [|c r IH]; [reflexivity|].
  cbn [all_chars PyStr.split]. intros H. apply andb_true_iff in H.
  destruct H as [H1 H2]. apply negb_true_iff in H1. rewrite H1, (IH H2). reflexivity.
Qed.

Lemma split_app_sep sep a r :
  all_chars (fun c => negb (Ascii.eqb c sep)) a = true ->
  PyStr.split sep (a ++ String sep r) = a :: PyStr.split sep r.
Proof.
  induction a as [|c a IH].
  - intros _. cbn [String.append PyStr.split]. rewrite Ascii.eqb_refl. reflexivity.
  - cbn [all_chars String.append PyStr.split]. intros H. apply andb_true_iff in H.
    destruct H as [H1 H2]. apply negb_true_iff in H1. rewrite H1, (IH H2). reflexivity.
Qed.

Lemma decimal_char_cases c :
  decimal_char c = true ->
  PyStr.is_space c = false /\ Ascii.eqb c "," = false /\ Ascii.eqb c "|" = false.
Proof.
  destruct c as [[] [] [] [] [] [] [] []]; vm_compute; intros H;
    first [discriminate H | repeat split].
Qed.

Lemma uint_decimal_chars u :
  all_chars decimal_char (DecimalString.NilEmpty.string_of_uint u) = true.
Proof. induction u; cbn [DecimalString.NilEmpty.string_of_uint all_chars]; auto. Qed.

Lemma decimal_text_chars z : all_chars decimal_char (decimal_text z) = true.
Proof.
  unfold decimal_text.
  destruct z as [|p|p]; cbn [Z.to_int DecimalString.NilZero.string_of_int].
  - reflexivity.
  - unfold DecimalString.NilZero.string_of_uint.
    destruct (Pos.to_uint p); try apply uint_decimal_chars. reflexivity.
  - cbn [all_chars]. unfold DecimalString.NilZero.string_of_uint.
    destruct (Pos.to_uint p); try apply uint_decimal_chars. reflexivity.
Qed.

Lemma parse_digits_acc u acc :
  PyStr.parse_digits (DecimalString.NilEmpty.string_of_uint u) (Z.pos acc) true =
  Some (Z.pos (Pos.of_uint_acc u acc)).
Proof.
  revert acc. induction u; intros acc;
    cbn [DecimalString.NilEmpty.string_of_uint PyStr.parse_digits Pos.of_uint_acc];
    [reflexivity|..];
    match goal with
    | |- context [PyStr.digit_value ?c] =>
        let d := eval vm_compute in (PyStr.digit_value c) in
        change (PyStr.digit_value c) with d; cbv beta iota
    end;
    match goal with
    | |- PyStr.parse_digits _ ?a true = Some (Z.pos (Pos.of_uint_acc _ ?b)) =>
        replace a with (Z.pos b) by lia
    end; apply IHu.
Qed.

Lemma parse_digits_uint u :
  PyStr.parse_digits (DecimalString.NilEmpty.string_of_uint u) 0 true =
  Some (Z.of_N (Pos.of_uint u)).
Proof.
  induction u;
    cbn [DecimalString.NilEmpty.string_of_uint PyStr.parse_digits Pos.of_uint];
    [reflexivity|..];
    match goal with
    | |- context [PyStr.digit_value ?c] =>
        let d := eval vm_compute in (PyStr.digit_value c) in
        change (PyStr.digit_value c) with d; cbv beta iota
    end;
    [exact IHu|..]; cbn [Z.mul Z.add Z.of_N]; apply parse_digits_acc.
Qed.

Lemma parse_digits_first u :
  u <> Decimal.Nil ->
  PyStr.parse_digits (DecimalString.NilEmpty.string_of_uint u) 0 false =
  Some (Z.of_N (Pos.of_uint u)).
Proof.
  intros Hu. rewrite <- (parse_digits_uint u).
  destruct u; [contradiction|..];
    cbn [DecimalString.NilEmpty.string_of_uint PyStr.parse_digits];
    match goal with
    | |- context [PyStr.digit_value ?c] =>
        let d := eval vm_compute in (PyStr.digit_value c) in
        change (PyStr.digit_value c) with d; cbv beta iota
    end; reflexivity.
Qed.

Lemma unsigned_branch (digits : string -> option Z) u :
  u <> Decimal.Nil ->
  match DecimalString.NilEmpty.string_of_uint u with
  | String "+" t => digits t
  | String "-" t => option_map Z.opp (digits t)
  | t => digits t
  end = digits (DecimalString.NilEmpty.string_of_uint u).
Proof.
  intros Hu. destruct u; [contradiction|..]; reflexivity.
Qed.

Lemma string_of_uint_nonnil u :
  u <> Decimal.Nil ->
  DecimalString.NilZero.string_of_uint u = DecimalString.NilEmpty.string_of_uint u.
Proof. destruct u; [contradiction|..]; reflexivity. Qed.

Lemma decimal_text_no_space z :
  all_chars (fun c => negb (PyStr.is_space c)) (decimal_text z) = true.
Proof.
  apply (all_chars_impl decimal_char); [|apply decimal_text_chars].
  intros c Hc. destruct (decimal_char_cases c Hc) as [H _]. rewrite H. reflexivity.
Qed.

Lemma parse_int_digits_uint u :
  u <> Decimal.Nil ->
  PyStr.count_digits (DecimalString.NilEmpty.string_of_uint u) <= PyStr.max_str_digits ->
  PyStr.parse_int_digits (DecimalString.NilEmpty.string_of_uint u) =
  Some (Z.of_N (Pos.of_uint u)).
Proof.
  intros Hn Hc. unfold PyStr.parse_int_digits.
  replace (PyStr.max_str_digits <? _) with false by (symmetry; apply Z.ltb_ge; exact Hc).
  apply parse_digits_first, Hn.
Qed.

Lemma int_of_decimal_text z :
  PyStr.count_digits (decimal_text z) <= PyStr.max_str_digits ->
  PyStr.int_of_str (decimal_text z) = Ok z.
Proof.
  intros Hc. unfold PyStr.int_of_str.
  rewrite (strip_id _ (decimal_text_no_space z)).
  revert Hc. unfold decimal_text.
  destruct z as [|p|p]; cbn [Z.to_int DecimalString.NilZero.string_of_int].
  - intros _. reflexivity.
  - pose proof (DecimalPos.Unsigned.to_uint_nonnil p) as Hn.
    rewrite (string_of_uint_nonnil _ Hn). intros Hc.
    rewrite (unsigned_branch PyStr.parse_int_digits _ Hn).
    rewrite (parse_int_digits_uint _ Hn Hc), DecimalPos.Unsigned.of_to. reflexivity.
  - pose proof (DecimalPos.Unsigned.to_uint_nonnil p) as Hn.
    rewrite (string_of_uint_nonnil _ Hn).
    change (PyStr.count_digits (String "-" ?t)) with (PyStr.count_digits t).
    intros Hc. cbv beta iota.
    rewrite (parse_int_digits_uint _ Hn Hc), DecimalPos.Unsigned.of_to. reflexivity.
Qed.

Lemma str_of_int_inv z s :
  str_of_int z = Ok s ->
  s = decimal_text z /\ PyStr.count_digits (decimal_text z) <= PyStr.max_str_digits.
Proof.
  unfold str_of_int.
  destruct (PyStr.max_str_digits <? PyStr.count_digits (decimal_text z)) eqn:E;
    [discriminate|].
  intros H. injection H as <-. split; [reflexivity|]. apply Z.ltb_ge, E.
Qed.

Lemma int_of_str_of_int z s : str_of_int z = Ok s -> PyStr.int_of_str s = Ok z.
Proof.
  intros H. destruct (str_of_int_inv z s H) as [-> Hc]. apply int_of_decimal_text, Hc.
Qed.

Lemma position_text_inv a b c d text :
  position_text a b c d = Ok text ->
  text = (decimal_text a ++ String "," (decimal_text b ++ String ","
            (decimal_text c ++ String "," (decimal_text d))))%string /\
  str_of_int a = Ok (decimal_text a) /\ str_of_int b = Ok (decimal_text b) /\
  str_of_int c = Ok (decimal_text c) /\ str_of_int d = Ok (decimal_text d).
Proof.
  unfold position_text.
  destruct (str_of_int a) as [sa|] eqn:Ea; [|discriminate].
  destruct (str_of_int b) as [sb|] eqn:Eb; [|discriminate].
  destruct (str_of_int c) as [sc|] eqn:Ec; [|discriminate].
  destruct (str_of_int d) as [sd|] eqn:Ed; [|discriminate].
  cbn [rbind]. intros H. injection H as <-.
  destruct (str_of_int_inv _ _ Ea) as [-> _]. destruct (str_of_int_inv _ _ Eb) as [-> _].
  destruct (str_of_int_inv _ _ Ec) as [-> _]. destruct (str_of_int_inv _ _ Ed) as [-> _].
  repeat split; reflexivity.
Qed.

Lemma position_text_chars a b c d :
  all_chars (fun ch => decimal_char ch || Ascii.eqb ch ",")
    (decimal_text a ++ String "," (decimal_text b ++ String ","
       (decimal_text c ++ String "," (decimal_text d)))) = true.
Proof.
  assert (D : forall z, all_chars (fun ch => decimal_char ch || Ascii.eqb ch ",")
                          (decimal_text z) = true).
  { intros z. apply (all_chars_impl decimal_char); [|apply decimal_text_chars].
    intros ch H. rewrite H. reflexivity. }
  rewrite !all_chars_app. cbn [all_chars]. rewrite !all_chars_app. cbn [all_chars].
  rewrite !all_chars_app. cbn [all_chars]. rewrite !D. reflexivity.
Qed.

Lemma position_text_clean a b c d :
  let text := (decimal_text a ++ String "," (decimal_text b ++ String ","
                 (decimal_text c ++ String "," (decimal_text d))))%string in
  all_chars (fun ch => negb (PyStr.is_space ch)) text = true /\
  all_chars (fun ch => negb (Ascii.eqb ch "|")) text = true.
Proof.
  assert (K : forall ch, decimal_char ch || Ascii.eqb ch "," = true ->
                PyStr.is_space ch = false /\ Ascii.eqb ch "|" = false).
  { intros ch H. apply orb_true_iff in H. destruct H as [H|H].
    - destruct (decimal_char_cases ch H) as (H1 & _ & H2). split; assumption.
    - apply Ascii.eqb_eq in H. subst ch. split; reflexivity. }
  cbv zeta. split.
  - apply (all_chars_impl _ _ _ (fun ch H => f_equal negb (proj1 (K ch H)))).
    apply position_text_chars.
  - apply (all_chars_impl _ _ _ (fun ch H => f_equal negb (proj2 (K ch H)))).
    apply position_text_chars.
Qed.

Lemma decimal_text_no_comma z :
  all_chars (fun ch => negb (Ascii.eqb ch ",")) (decimal_text z) = true.
Proof.
  apply (all_chars_impl decimal_char); [|apply decimal_text_chars].
  intros ch H. destruct (decimal_char_cases ch H) as (_ & H1 & _). rewrite H1. reflexivity.
Qed.

Lemma int_of_token z :
  str_of_int z = Ok (decimal_text z) ->
  PyStr.int_of_str (PyStr.strip (decimal_text z)) = Ok z.
Proof.
  intros H. rewrite (strip_id _ (decimal_text_no_space z)).
  exact (int_of_str_of_int z _ H).
Qed.

Lemma parse_position_text a b c d text :
  position_text a b c d = Ok text -> parse_step text = Ok [a; b; c; d].
Proof.
  intros H. destruct (position_text_inv a b c d text H) as (-> & Ha & Hb & Hc & Hd).
  unfold parse_step.
  rewrite (strip_id _ (proj1 (position_text_clean a b c d))).
  rewrite !split_app_sep by apply decimal_text_no_comma.
  rewrite split_no_sep by apply decimal_text_no_comma.
  cbn [rmap]. rewrite (int_of_token a Ha), (int_of_token b Hb), (int_of_token c Hc),
    (int_of_token d Hd). reflexivity.
Qed.

Lemma clamp_values_id pos : in_bounds pos -> clamp_values pos = pos.
Proof.
  intros Hb. pose proof Hb as [_ H].
  destruct (in_bounds_inv _ Hb) as (p0 & p1 & p2 & p3 & -> & B0 & B1 & B3).
  pose proof (H 2%nat ltac:(lia)) as B2. cbn [nth MIN_PULSE MAX_PULSE] in B2.
  change (clamp_values [p0; p1; p2; p3])
    with [clamp 4000 8000 p0; clamp 4000 8000 p1; 5000; clamp 4000 6000 p3].
  unfold clamp. repeat f_equal; lia.
Qed.

(** X14: the position text handed to the translator reads back: the four
    integers rendered as "claw,base,fixed,reach" (negative ones included)
    are parsed by the step parser of handle_prompt into the same four
    integers. *)
Theorem rendered_position_parses (pos : list Z) (text : string) :
  render_position pos = Ok text -> parse_step text = Ok pos.
Proof.
  destruct pos as [|a [|b [|c [|d [|? ?]]]]]; try discriminate.
  cbn [render_position]. apply parse_position_text.
Qed.

Lemma rendered_position_parses_witness :
  render_position [6000; -12; 5000; 0] = Ok "6000,-12,5000,0"%string /\
  parse_step "6000,-12,5000,0" = Ok [6000; -12; 5000; 0].
Proof.
  assert (E : render_position [6000; -12; 5000; 0] = Ok "6000,-12,5000,0"%string)
    by (vm_compute; reflexivity).
  split; [exact E|].
  exact (rendered_position_parses [6000; -12; 5000; 0] "6000,-12,5000,0" E).
Defined.

(** X15: a translator that answers with the starting position it was shown
    leaves the arm where it is: handle_prompt runs the single step without
    error, the position store is unchanged, and the 61 commands it sends
    are all within the channel bounds. *)
Theorem echoed_position_is_kept (st : state) (text : string) :
  in_bounds (current_position st) ->
  render_position (current_position st) = Ok text ->
  exists events,
    handle_prompt (Ok text) st = mkState (current_position st) (trace st ++ events) /\
    Forall safe_event events /\
    List.length (serial_writes events) = 61%nat.
Proof.
  intros Hb Hr.
  destruct (in_bounds_inv _ Hb) as (p0 & p1 & p2 & p3 & E & _).
  assert (Hp : parse_step text = Ok (current_position st)).
  { rewrite E in Hr |- *. cbn [render_position] in Hr.
    exact (parse_position_text _ _ _ _ _ Hr). }
  assert (Hl : List.length (current_position st) = 4%nat) by (rewrite E; reflexivity).
  destruct (execute_values_safe st text _ Hb Hl) as (events & Hx & Hs & Hn).
  rewrite (clamp_values_id _ Hb) in Hx.
  exists events. split; [|split; assumption].
  rewrite E in Hr. cbn [render_position] in Hr.
  destruct (position_text_inv _ _ _ _ _ Hr) as (Ht & _).
  unfold handle_prompt, bind at 1, lift at 1, run_plan.
  rewrite Ht at 1.
  rewrite (strip_id _ (proj1 (position_text_clean p0 p1 p2 p3))).
  rewrite (split_no_sep _ _ (proj2 (position_text_clean p0 p1 p2 p3))).
  rewrite <- Ht. cbn [for_each]. unfold bind at 1. unfold execute_step, bind at 1, lift at 1.
  rewrite Hp, Hx. reflexivity.
Qed.

Lemma echoed_position_is_kept_witness :
  in_bounds (current_position initial_state) /\
  render_position (current_position initial_state) = Ok "6000,6000,5000,5000"%string /\
  exists events,
    handle_prompt (Ok "6000,6000,5000,5000"%string) initial_state =
      mkState (current_position initial_state) (trace initial_state ++ events) /\
    Forall safe_event events /\
    List.length (serial_writes events) = 61%nat.
Proof.
  assert (E : render_position (current_position initial_state) =
              Ok "6000,6000,5000,5000"%string) by (vm_compute; reflexivity).
  split; [exact in_bounds_NEUTRAL|]. split; [exact E|].
  exact (echoed_position_is_kept initial_state "6000,6000,5000,5000" in_bounds_NEUTRAL E).
Defined.

(** * A motion with missing targets *)

Lemma move_missing_target targets st i start :
  i <> 2%nat -> nth_error (current_position st) i = Some start ->
  nth_error targets i = None ->
  move_channel targets i st = (Raise IndexError, st).
Proof.
  intros Hn Hs Ht. unfold move_channel.
  replace (Nat.eqb i 2) with false by (symmetry; apply Nat.eqb_neq; exact Hn).
  unfold bind at 1. unfold get_position. rewrite Hs.
  unfold bind at 1. unfold lift, index. rewrite Ht. reflexivity.
Qed.

Lemma frames_from_bounds p t :
  4000 <= p <= 8000 -> Z.abs t <= 1000000 ->
  interpolation_frames p t = Ok (map (frame_value p t) step_range).
Proof.
  intros Hp Ht.
  apply interpolation_frames_ok; apply exact_int_small; lia.
Qed.

(** X18: move_to_position does not check the number of targets: with fewer
    than four it raises IndexError only on reaching the first missing one.
    The channels before it have been moved and stored by then (channel 2
    is set to 5000 once two targets are present) and nothing is undone. *)
Theorem move_to_position_short_targets (st : state) (targets : list Z) :
  in_bounds (current_position st) ->
  (List.length targets < 4)%nat ->
  Forall (fun t => Z.abs t <= 1000000) targets ->
  exists st',
    move_to_position targets st = (Raise IndexError, st') /\
    (forall i, (i < List.length targets)%nat -> i <> 2%nat ->
       nth i (current_position st') 0 = nth i targets 0) /\
    List.length (serial_writes (trace st')) =
      (List.length (serial_writes (trace st)) +
       match List.length targets with 0 => 0 | 1 => 20 | _ => 41 end)%nat.
Proof.
  intros Hb Hl Ht.
  destruct (in_bounds_inv _ Hb) as (p0 & p1 & p2 & p3 & Hp & B0 & B1 & B3).
  unfold move_to_position.
  change (seq 0 (List.length servo_channels)) with [0; 1; 2; 3]%nat.
  cbn [for_each]. unfold bind at 1.
  destruct targets as [|t0 targets].
  { exists st. rewrite (move_missing_target [] st 0 p0) by (rewrite ?Hp; reflexivity || lia).
    split; [reflexivity|]. split; [cbn [List.length]; lia|].
    cbn [List.length]. lia. }
  pose proof (Forall_inv Ht) as T0. apply Forall_inv_tail in Ht. cbv beta in T0.
  rewrite (move_free_channel (t0 :: targets) st 0 [p0; p1; p2; p3] p0 t0 _ [t0; p1; p2; p3]
             ltac:(lia) ltac:(lia) Hp eq_refl eq_refl
             (frames_from_bounds p0 t0 B0 T0) eq_refl).
  unfold bind at 1.
  destruct targets as [|t1 targets].
  { eexists.
    rewrite (move_missing_target [t0] _ 1 p1) by (reflexivity || lia).
    split; [reflexivity|]. cbn [current_position trace List.length]. split.
    - intros i Hi _. assert (i = 0)%nat as -> by lia. reflexivity.
    - rewrite serial_writes_app, length_app. reflexivity. }
  pose proof (Forall_inv Ht) as T1. apply Forall_inv_tail in Ht. cbv beta in T1.
  rewrite (move_free_channel (t0 :: t1 :: targets)
             (mkState [t0; p1; p2; p3]
                (trace st ++ frame_events 0 (map (frame_value p0 t0) step_range)))
             1 [t0; p1; p2; p3] p1 t1 _ [t0; t1; p2; p3]
             ltac:(lia) ltac:(lia) eq_refl eq_refl eq_refl
             (frames_from_bounds p1 t1 B1 T1) eq_refl).
  unfold bind at 1.
  rewrite (move_locked_channel _ _ t0 t1 p2 p3) by reflexivity.
  unfold bind at 1.
  assert (Hm : nth_error (t0 :: t1 :: targets) 3 = None).
  { apply nth_error_None. exact (proj1 (Nat.lt_succ_r _ _) Hl). }
  eexists.
  rewrite (move_missing_target _ _ 3 p3) by (reflexivity || lia || exact Hm).
  split; [reflexivity|]. cbn [current_position trace]. split.
  - intros i Hi Hn.
    destruct i as [|[|[|i]]]; try reflexivity; exfalso; lia.
  - rewrite <- !app_assoc, serial_writes_app, length_app.
    destruct targets; reflexivity.
Qed.

Lemma move_to_position_short_targets_witness :
  in_bounds (current_position initial_state) /\
  (List.length [8000; 4000]%Z < 4)%nat /\
  Forall (fun t => Z.abs t <= 1000000) [8000; 4000] /\
  exists st',
    move_to_position [8000; 4000] initial_state = (Raise IndexError, st') /\
    (forall i, (i < List.length [8000; 4000]%Z)%nat -> i <> 2%nat ->
       nth i (current_position st') 0 = nth i [8000; 4000] 0) /\
    List.length (serial_writes (trace st')) =
      (List.length (serial_writes (trace initial_state)) +
       match List.length [8000; 4000]%Z with 0 => 0 | 1 => 20 | _ => 41 end)%nat.
Proof.
  assert (F : Forall (fun t => Z.abs t <= 1000000) [8000; 4000])
    by (repeat constructor; cbn; lia).
  split; [exact in_bounds_NEUTRAL|]. split; [cbn; lia|]. split; [exact F|].
  apply (move_to_position_short_targets initial_state [8000; 4000] in_bounds_NEUTRAL);
    [cbn; lia|exact F].
Defined.

(** * Dispatch of recognised and typed text *)

Lemma startswith_app prefix rest : startswith (prefix ++ rest) prefix = true.
Proof.
  induction prefix as [|p prefix IH]; [reflexivity|].
  cbn [String.append startswith]. rewrite Ascii.eqb_refl, IH. reflexivity.
Qed.

Lemma startswith_inv text prefix :
  startswith text prefix = true ->
  text = (prefix ++ slice_from (String.length prefix) text)%string.
Proof.
  revert text. induction prefix as [|p prefix IH]; intros text H; [reflexivity|].
  destruct text as [|c text]; [discriminate|].
  cbn [startswith] in H. apply andb_true_iff in H. destruct H as [H1 H2].
  apply Ascii.eqb_eq in H1. subst c.
  cbn [String.length slice_from String.append]. f_equal. apply IH, H2.
Qed.

Lemma slice_from_app prefix rest :
  slice_from (String.length prefix) (prefix ++ rest) = rest.
Proof. induction prefix as [|p prefix IH]; [reflexivity|]. exact IH. Qed.

Lemma lstrip_chars_split chars s :
  exists l, s = (l ++ lstrip_chars chars s)%string /\
            all_chars (fun c => mem_char c chars) l = true.
Proof.
  induction s as [|c r (l & E & Hl)].
  - exists EmptyString. split; reflexivity.
  - cbn [lstrip_chars]. destruct (mem_char c chars) eqn:M.
    + exists (String c l). cbn [String.append all_chars]. rewrite M, Hl, <- E.
      split; reflexivity.
    + exists EmptyString. split; reflexivity.
Qed.

Lemma lstrip_chars_head chars s x q :
  lstrip_chars chars s = String x q -> mem_char x chars = false.
Proof.
  induction s as [|c r IH]; [discriminate|].
  cbn [lstrip_chars]. destruct (mem_char c chars) eqn:M; [exact IH|].
  intros H. injection H as <- _. exact M.
Qed.

Lemma rstrip_chars_split chars s :
  exists r, s = (rstrip_chars chars s ++ r)%string /\
            all_chars (fun c => mem_char c chars) r = true.
Proof.
  induction s as [|c s (r & E & Hr)].
  - exists EmptyString. split; reflexivity.
  - cbn [rstrip_chars]. destruct (rstrip_chars chars s) as [|c' s'] eqn:R.
    + destruct (mem_char c chars) eqn:M.
      * exists (String c r). cbn [String.append all_chars] in *.
        rewrite M, Hr, <- E. split; reflexivity.
      * exists r. cbn [String.append] in *. split; [rewrite <- E; reflexivity|exact Hr].
    + exists r. cbn [String.append] in *. split; [rewrite <- E; reflexivity|exact Hr].
Qed.

Lemma rstrip_chars_head chars s x q :
  rstrip_chars chars s = String x q -> exists q', s = String x q'.
Proof.
  destruct s as [|c s]; [discriminate|].
  cbn [rstrip_chars]. destruct (rstrip_chars chars s); [destruct (mem_char c chars)|];
    intros H; try discriminate; injection H as <- _; eexists; reflexivity.
Qed.

Lemma rstrip_chars_last chars s p x :
  rstrip_chars chars s = (p ++ String x EmptyString)%string -> mem_char x chars = false.
Proof.
  revert p. induction s as [|c s IH]; intros p.
  - destruct p; discriminate.
  - cbn [rstrip_chars]. destruct (rstrip_chars chars s) as [|c' s'] eqn:R.
    + destruct (mem_char c chars) eqn:M; [destruct p; discriminate|].
      destruct p as [|c1 [|c2 p]]; cbn [String.append]; intros H; try discriminate.
      injection H as <-. exact M.
    + destruct p as [|c1 p]; cbn [String.append]; intros H; [discriminate|].
      injection H as _ H. exact (IH p H).
Qed.

Lemma string_length_app (a b : string) :
  String.length (a ++ b) = (String.length a + String.length b)%nat.
Proof.
  induction a as [|c a IH]; [reflexivity|].
  cbn [String.append String.length]. rewrite IH. reflexivity.
Qed.

(** X16: a recognised text that starts with the wake word is always
    dispatched, and the command handed to handle_prompt is the remainder
    without its leading and trailing commas, periods and spaces: the
    remainder is l ++ command ++ r where l and r consist of those
    characters only and the command neither begins nor ends with one. *)
Theorem wake_word_command (rest : string) :
  exists l command r,
    wake_command (WAKE_WORD ++ rest) = Some command /\
    rest = (l ++ command ++ r)%string /\
    all_chars (fun c => mem_char c ",. ") l = true /\
    all_chars (fun c => mem_char c ",. ") r = true /\
    (forall x q, command = String x q -> mem_char x ",. " = false) /\
    (forall p x, command = (p ++ String x EmptyString)%string -> mem_char x ",. " = false).
Proof.
  unfold wake_command. rewrite startswith_app, slice_from_app.
  destruct (lstrip_chars_split ",. " rest) as (l & El & Hl).
  destruct (rstrip_chars_split ",. " (lstrip_chars ",. " rest)) as (r & Er & Hr).
  exists l, (strip_chars ",. " rest), r.
  split; [reflexivity|]. split; [|split; [exact Hl|split; [exact Hr|split]]].
  - unfold strip_chars. rewrite <- Er. exact El.
  - intros x q H. unfold strip_chars in H.
    destruct (rstrip_chars_head _ _ _ _ H) as (q' & H').
    exact (lstrip_chars_head _ _ _ _ H').
  - intros p x H. exact (rstrip_chars_last _ _ _ _ H).
Qed.

(** X17: a recognised text is dispatched only if it starts with the wake
    word: the command is then the stripped remainder of the text, so it is
    shorter than the text by the ten characters of the wake word at
    least. *)
Theorem dispatched_text_has_wake_word (text command : string) :
  wake_command text = Some command ->
  exists rest,
    text = (WAKE_WORD ++ rest)%string /\
    command = strip_chars ",. " rest /\
    (String.length command + 10 <= String.length text)%nat.
Proof.
  unfold wake_command. set (rest := slice_from (String.length WAKE_WORD) text).
  destruct (startswith text WAKE_WORD) eqn:S; [|discriminate].
  intros H. assert (Hc : command = strip_chars ",. " rest) by congruence.
  clear H. subst command.
  pose proof (startswith_inv _ _ S) as E. fold rest in E.
  exists rest. split; [exact E|]. split; [reflexivity|].
  destruct (lstrip_chars_split ",. " rest) as (l & El & _).
  destruct (rstrip_chars_split ",. " (lstrip_chars ",. " rest)) as (r & Er & _).
  fold (strip_chars ",. " rest) in Er.
  apply (f_equal String.length) in E, El, Er.
  rewrite string_length_app in E, El, Er.
  change (String.length WAKE_WORD) with 10%nat in E. lia.
Qed.

Lemma dispatched_text_has_wake_word_witness :
  wake_command "terminator, open the claw." = Some "open the claw"%string /\
  exists rest,
    "terminator, open the claw."%string = (WAKE_WORD ++ rest)%string /\
    "open the claw"%string = strip_chars ",. " rest /\
    (String.length "open the claw" + 10 <= String.length "terminator, open the claw.")%nat.
Proof.
  assert (E : wake_command "terminator, open the claw." = Some "open the claw"%string)
    by (vm_compute; reflexivity).
  split; [exact E|].
  exact (dispatched_text_has_wake_word "terminator, open the claw." "open the claw" E).
Defined.

(** * The position reached does not depend on where the arm was *)

Lemma execute_step_position (step : string) (st1 st2 : state) :
  in_bounds (current_position st1) -> in_bounds (current_position st2) ->
  exists r st1' st2',
    execute_step step st1 = (r, st1') /\ execute_step step st2 = (r, st2') /\
    in_bounds (current_position st1') /\ in_bounds (current_position st2') /\
    ((current_position st1' = current_position st1 /\
      current_position st2' = current_position st2) \/
     (r = Ok tt /\ current_position st1' = current_position st2')).
Proof.
  intros B1 B2. unfold execute_step, bind, lift.
  destruct (parse_step step) as [values|e].
  - destruct (Nat.eq_dec (List.length values) 4) as [Hl|Hl].
    + destruct (execute_values_safe st1 step values B1 Hl) as (ev1 & E1 & _).
      destruct (execute_values_safe st2 step values B2 Hl) as (ev2 & E2 & _).
      rewrite E1, E2. do 3 eexists. split; [reflexivity|]. split; [reflexivity|].
      cbn [current_position].
      destruct values as [|v0 [|v1 [|v2 [|v3 [|? ?]]]]]; try discriminate.
      split; [apply in_bounds_clamp_values|]. split; [apply in_bounds_clamp_values|].
      right. split; reflexivity.
    + unfold execute_values. cbn [servo_channels List.length].
      replace (Nat.eqb (List.length values) 4) with false
        by (symmetry; apply Nat.eqb_neq; exact Hl).
      cbn [negb]. unfold emit. do 3 eexists.
      split; [reflexivity|]. split; [reflexivity|]. cbn [current_position].
      split; [exact B1|]. split; [exact B2|]. left. split; reflexivity.
  - exists (Raise e), st1, st2. split; [reflexivity|]. split; [reflexivity|].
    split; [exact B1|]. split; [exact B2|]. left. split; reflexivity.
Qed.

Lemma plan_position (steps : list string) (st1 st2 : state) :
  in_bounds (current_position st1) -> in_bounds (current_position st2) ->
  exists r st1' st2',
    for_each steps execute_step st1 = (r, st1') /\
    for_each steps execute_step st2 = (r, st2') /\
    ((current_position st1' = current_position st1 /\
      current_position st2' = current_position st2) \/
     current_position st1' = current_position st2').
Proof.
  revert st1 st2. induction steps as [|step steps IH]; intros st1 st2 B1 B2.
  - exists (Ok tt), st1, st2. split; [reflexivity|]. split; [reflexivity|].
    left. split; reflexivity.
  - destruct (execute_step_position step st1 st2 B1 B2)
      as (r & s1 & s2 & E1 & E2 & C1 & C2 & Hc).
    cbn [for_each]. unfold bind. rewrite E1, E2.
    destruct r as [[]|e].
    + destruct (IH s1 s2 C1 C2) as (r' & s1' & s2' & F1 & F2 & Hc').
      exists r', s1', s2'. split; [exact F1|]. split; [exact F2|].
      destruct Hc' as [[H1 H2]|H]; [|right; exact H].
      destruct Hc as [[G1 G2]|[_ G]].
      * left. split; congruence.
      * right. congruence.
    + exists (Raise e), s1, s2. split; [reflexivity|]. split; [reflexivity|].
      destruct Hc as [Hc|[Hc _]]; [left; exact Hc|discriminate].
Qed.

(** X19: where the arm ends up is decided by the translator's answer, not
    by where it was: from two positions within bounds the same answer
    either leaves both untouched (no step was carried out) or brings both
    to the same position. *)
Theorem answer_decides_position (translation : result string) (st1 st2 : state) :
  in_bounds (current_position st1) -> in_bounds (current_position st2) ->
  (current_position (handle_prompt translation st1) = current_position st1 /\
   current_position (handle_prompt translation st2) = current_position st2) \/
  current_position (handle_prompt translation st1) =
  current_position (handle_prompt translation st2).
Proof.
  intros B1 B2. unfold handle_prompt, bind, lift.
  destruct translation as [response|e].
  - unfold run_plan.
    destruct (plan_position (PyStr.split "|" (PyStr.strip response)) st1 st2 B1 B2)
      as (r & s1 & s2 & E1 & E2 & Hc).
    rewrite E1, E2. destruct r as [[]|e]; exact Hc.
  - left. split; reflexivity.
Qed.

Lemma answer_decides_position_witness :
  in_bounds (current_position initial_state) /\
  in_bounds (current_position (mkState [4000; 8000; 5000; 6000] [])) /\
  ((current_position (handle_prompt (Ok "8000,6000,5000,5000"%string) initial_state) =
      current_position initial_state /\
    current_position (handle_prompt (Ok "8000,6000,5000,5000"%string)
                        (mkState [4000; 8000; 5000; 6000] [])) =
      current_position (mkState [4000; 8000; 5000; 6000] [])) \/
   current_position (handle_prompt (Ok "8000,6000,5000,5000"%string) initial_state) =
   current_position (handle_prompt (Ok "8000,6000,5000,5000"%string)
                       (mkState [4000; 8000; 5000; 6000] []))).
Proof.
  assert (B : in_bounds (current_position (mkState [4000; 8000; 5000; 6000] []))).
  { split; [reflexivity|]. intros ch Hch. cbn [current_position].
    destruct ch as [|[|[|[|ch]]]]; cbn [nth MIN_PULSE MAX_PULSE]; lia. }
  split; [exact in_bounds_NEUTRAL|]. split; [exact B|].
  exact (answer_decides_position (Ok "8000,6000,5000,5000"%string) initial_state
           (mkState [4000; 8000; 5000; 6000] []) in_bounds_NEUTRAL B).
Defined.

(** X20: repeating a prompt that gets the same answer does not move the
    stored position any further: handle_prompt is idempotent on the
    position store for every answer, well-formed or not. *)
Theorem handle_prompt_idempotent (translation : result string) (st : state) :
  in_bounds (current_position st) ->
  current_position (handle_prompt translation (handle_prompt translation st)) =
  current_position (handle_prompt translation st).
Proof.
  intros Hb.
  destruct (handle_prompt_effects translation st Hb) as (pos' & events & E & B' & _).
  assert (B2 : in_bounds (current_position (handle_prompt translation st)))
    by (rewrite E; exact B').
  destruct translation as [response|e]; [|reflexivity].
  set (st1 := handle_prompt (Ok response) st) in *.
  assert (P : forall s, current_position (handle_prompt (Ok response) s) =
                current_position
                  (snd (for_each (PyStr.split "|" (PyStr.strip response)) execute_step s))).
  { intros s. unfold handle_prompt, bind, lift, run_plan.
    destruct (for_each _ execute_step s) as [[[]|e] s']; reflexivity. }
  destruct (plan_position (PyStr.split "|" (PyStr.strip response)) st st1 Hb B2)
    as (r & s1 & s2 & E1 & E2 & Hc).
  rewrite (P st1), E2. cbn [snd].
  assert (Q : current_position st1 = current_position s1).
  { unfold st1. rewrite (P st), E1. reflexivity. }
  destruct Hc as [[_ H]|H]; congruence.
Qed.

Lemma handle_prompt_idempotent_witness :
  in_bounds (current_position initial_state) /\
  current_position (handle_prompt (Ok "8000,6000,5000,5000 | 4000,x"%string)
                      (handle_prompt (Ok "8000,6000,5000,5000 | 4000,x"%string)
                         initial_state)) =
  current_position (handle_prompt (Ok "8000,6000,5000,5000 | 4000,x"%string) initial_state).
Proof.
  split; [exact in_bounds_NEUTRAL|].
  exact (handle_prompt_idempotent (Ok "8000,6000,5000,5000 | 4000,x"%string)
           initial_state in_bounds_NEUTRAL).
Defined.
